(** * bluetuith: command-line option resolution and validation (cmd/flags.go)

    A shallow embedding of the option pipeline of [cmd/flags.go]: the
    loader [parse] and the validators [cmdOptionListAdapters],
    [cmdOptionAdapterStates], [cmdOptionGsm] and [cmdOptionVersion],
    together with the properties of the specification that concern them.

    Go strings are byte strings; they are modelled by [string] (a list of
    8-bit characters).  Every separator the program uses (',', ' ', ':',
    '@', '/', newline) is a single ASCII byte, and an ASCII byte never occurs
    inside a multi-byte UTF-8 sequence, so the byte-level functions below
    agree with the rune-level functions of the Go library on these calls. *)

From stdpp Require Import gmap strings list fin_maps.
From Stdlib Require Import ZArith Ascii.

Local Open Scope Z_scope.

(** ** Values of the property store *)

(** A value of the property store ([interface{}] in the source): a string, a
    boolean, or a string-keyed mapping such as the one [cmdOptionAdapterStates]
    stores. *)
Inductive PropertyValue :=
  | StringValue (s : string)
  | BoolValue (b : bool)
  | StringMapValue (m : gmap string string).

Global Instance PropertyValue_eq_dec : EqDecision PropertyValue.
Proof. solve_decision. Defined.

(** ** The Go library functions the program calls *)

Definition LF : string := String "010"%char "".

Module Strings.

(** [strings.Split(s, sep)] for a one-byte separator (both call sites pass
    one: "," and "@"): the substrings between the occurrences of [sep];
    always at least one element. *)
Fixpoint Split (s : string) (sep : ascii) : list string :=
  match s with
  | EmptyString => [""]
  | String c s' =>
      if bool_decide (c = sep) then "" :: Split s' sep
      else match Split s' sep with
           | f :: fs => String c f :: fs
           | [] => [String c ""]
           end
  end.

(** [strings.FieldsFunc(s, f)]: the maximal runs of characters that do not
    satisfy [f]; empty runs are dropped.  As in the library, one pass over
    the string with the field being read, if any ([start >= 0] there). *)
Fixpoint fieldsFrom (f : ascii → bool) (cur : option string) (s : string)
  : list string :=
  match s with
  | EmptyString => match cur with Some w => [w] | None => [] end
  | String c s' =>
      if f c then
        match cur with
        | Some w => w :: fieldsFrom f None s'
        | None => fieldsFrom f None s'
        end
      else
        fieldsFrom f (Some (default "" cur +:+ String c "")) s'
  end.

Definition FieldsFunc (s : string) (f : ascii → bool) : list string :=
  fieldsFrom f None s.

(** [strings.Join(elems, sep)]. *)
Fixpoint Join (elems : list string) (sep : string) : string :=
  match elems with
  | [] => ""
  | [e] => e
  | e :: es => e +:+ sep +:+ Join es sep
  end.

Fixpoint contains (c : ascii) (cutset : string) : bool :=
  match cutset with
  | EmptyString => false
  | String d cutset' => bool_decide (c = d) || contains c cutset'
  end.

(** [strings.TrimRight(s, cutset)]: [s] without its trailing characters
    that are in [cutset]. *)
Fixpoint TrimRight (s cutset : string) : string :=
  match s with
  | EmptyString => ""
  | String c s' =>
      match TrimRight s' cutset with
      | EmptyString => if contains c cutset then "" else String c ""
      | t => String c t
      end
  end.

End Strings.

Module Fmt.

(** [fmt.Sprintf] for formats whose only verb is [%s], with string
    arguments. *)
Fixpoint Sprintf (format : string) (args : list string) : string :=
  match format with
  | EmptyString => ""
  | String c rest =>
      match rest with
      | String d rest' =>
          if bool_decide (c = "%"%char) && bool_decide (d = "s"%char) then
            match args with
            | a :: args' => a +:+ Sprintf rest' args'
            | [] => "%!s(MISSING)" +:+ Sprintf rest' []
            end
          else String c (Sprintf rest args)
      | EmptyString => String c ""
      end
  end.

End Fmt.

Module Filepath.

(** [filepath.Base(path)] on Unix: the last element of the path, trailing
    slashes removed first; "." for the empty path and "/" for a path of
    slashes only. *)
Definition Base (path : string) : string :=
  match path with
  | EmptyString => "."
  | _ =>
      match last (Strings.Split (Strings.TrimRight path "/") "/"%char) with
      | Some (String c e) => String c e
      | _ => "/"
      end
  end.

End Filepath.

(** ** The flag and configuration libraries, as far as [parse] uses them *)

Definition DQ : string := String "034"%char "".

Module Pflag.

(** A flag of a flag set: its value (a boolean or a string, by the kind it
    was defined with) and whether the command line set it. *)
Record Flag := mkFlag {
  Usage : string;
  Value : PropertyValue;
  Changed : bool;
}.

(** A flag set holds its flags by name ([formal] in the library). *)
Abbreviation FlagSet := (gmap string Flag).

Definition NewFlagSet : FlagSet := ∅.

(** [fs.Bool(name, value, usage)] *)
Definition Bool (fs : FlagSet) (name : string) (value : bool) (usage : string)
  : FlagSet :=
  <[name := mkFlag usage (BoolValue value) false]> fs.

(** [strconv.ParseBool] *)
Definition ParseBool (str : string) : option bool :=
  if bool_decide (str ∈ ["1"; "t"; "T"; "TRUE"; "true"; "True"]) then Some true
  else if bool_decide (str ∈ ["0"; "f"; "F"; "FALSE"; "false"; "False"])
  then Some false
  else None.

(** The value a flag takes from the text given for it. *)
Definition convert (old : PropertyValue) (text : string) : option PropertyValue :=
  match old with
  | BoolValue _ => BoolValue <$> ParseBool text
  | _ => Some (StringValue text)
  end.

(** [fs.Set(name, text)]: an unknown flag and an invalid value are errors. *)
Definition Set_ (fs : FlagSet) (name text : string) : string + FlagSet :=
  match fs !! name with
  | None => inl ("unknown flag: --" +:+ name)
  | Some f =>
      match convert (Value f) text with
      | None =>
          inl ("invalid argument " +:+ DQ +:+ text +:+ DQ +:+ " for " +:+ DQ
               +:+ "--" +:+ name +:+ DQ +:+ " flag: strconv.ParseBool: parsing "
               +:+ DQ +:+ text +:+ DQ +:+ ": invalid syntax")
      | Some v => inr (<[name := mkFlag (Usage f) v true]> fs)
      end
  end.

(** [fs.Parse(arguments)].  The arguments are taken after the library has
    split them: one pair of a flag name and the text given for it per
    argument ("true" for a boolean flag given without a value), in the
    order of the command line.  The first error ends the parse. *)
Fixpoint Parse (fs : FlagSet) (arguments : list (string * string))
  : FlagSet * option string :=
  match arguments with
  | [] => (fs, None)
  | (name, text) :: arguments' =>
      match Set_ fs name text with
      | inl err => (fs, Some err)
      | inr fs' => Parse fs' arguments'
      end
  end.

(** [fs.String(name, value, usage)] *)
Definition String (fs : FlagSet) (name : string) (value : string)
    (usage : string) : FlagSet :=
  <[name := mkFlag usage (StringValue value) false]> fs.

End Pflag.

Module Koanf.

(** A provider of configuration: its raw bytes for a parser, or a map read
    against the configuration loaded so far.  Either may be an error. *)
Record Provider := mkProvider {
  ReadBytes : string + string;
  Read : gmap string PropertyValue → string + gmap string PropertyValue;
}.

(** [maps.Merge]: the source overwrites the destination key by key; two
    mappings under one key are merged. *)
Definition mergeValue (src dest : PropertyValue) : PropertyValue :=
  match src, dest with
  | StringMapValue a, StringMapValue b => StringMapValue (a ∪ b)
  | _, _ => src
  end.

Definition Merge (src dest : gmap string PropertyValue)
  : gmap string PropertyValue :=
  union_with (λ s d, Some (mergeValue s d)) src dest.

(** [posflag.Provider(fs, ".", ko)]: every flag the command line set, and
    the default of every other flag whose name the configuration does not
    hold yet; a flag left at its default never overrides a loaded value. *)
Definition Posflag (fs : Pflag.FlagSet) : Provider :=
  mkProvider
    (inl "posflag provider does not support this method")
    (λ ko, inr (map_imap
                  (λ name f,
                     if negb (Pflag.Changed f) && bool_decide (is_Some (ko !! name))
                     then None else Some (Pflag.Value f))
                  fs)).

End Koanf.

(** ** The process: property store, output streams, termination *)

Inductive Stream := Stdout | Stderr.

(** The state of the process: the package-level store [config] and what has
    been printed so far, the texts handed to [Print] and [PrintError] with
    the stream each went to. *)
Record Process := mkProcess {
  config : gmap string PropertyValue;
  output : list (Stream * string);
}.

(** How a call ends: it returns to its caller, the process exits with a
    status, or the Go runtime panics (an index out of range). *)
Inductive Outcome (A : Type) :=
  | Returned (a : A)
  | Exited (status : Z)
  | Panicked.
Global Arguments Returned {A} a.
Global Arguments Exited {A} status.
Global Arguments Panicked {A}.

Definition Cmd (A : Type) : Type := Process → Process * Outcome A.

Global Instance Cmd_mret : MRet Cmd := λ A a w, (w, Returned a).

Global Instance Cmd_bind : MBind Cmd := λ A B k m w,
  match m w with
  | (w', Returned a) => k a w'
  | (w', Exited status) => (w', Exited status)
  | (w', Panicked) => (w', Panicked)
  end.

Definition when (b : bool) (m : Cmd unit) : Cmd unit :=
  if b then m else mret tt.

(** A [for ... range] loop that threads its local variables. *)
Fixpoint forRange {A S} (body : S → A → Cmd S) (xs : list A) (s : S) : Cmd S :=
  match xs with
  | [] => mret s
  | x :: xs' => s' ← body s x; forRange body xs' s'
  end.

(** [l[i]]: a panic when [i] is out of range. *)
Definition index {A} (l : list A) (i : nat) : Cmd A :=
  λ w, match l !! i with
       | Some x => (w, Returned x)
       | None => (w, Panicked)
       end.

(** The process terminated with a non-zero status. *)
Definition fatal {A} (o : Outcome A) : Prop :=
  ∃ status, o = Exited status ∧ status ≠ 0.

(** Modelled from the spec: [Print] (cmd/print.go is not under src/).  It
    writes the text, to the error stream when the status is not 0, and
    terminates the process with the status; [cmdOptionVersion] relies on it
    not returning, since it would otherwise go on to read [versionInfo[1]]. *)
Definition Print (text : string) (status : Z) : Cmd unit :=
  λ w, (mkProcess (config w)
          (output w ++ [(if bool_decide (status = 0) then Stdout else Stderr, text)]),
        Exited status).

(** Modelled from the spec: [PrintError] (cmd/print.go is not under src/).
    A fatal failure: the diagnostic goes to the error stream and the process
    terminates with a non-zero status. *)
Definition PrintError (text : string) : Cmd unit := Print text 1.

(** Modelled from the spec: [GetProperty] (cmd/config.go is not under src/).
    The string stored under the name; the empty string if the name is absent
    or its value is not a string. *)
Definition GetProperty (name : string) : Cmd string :=
  λ w, (w, Returned match config w !! name with
                    | Some (StringValue s) => s
                    | _ => ""
                    end).

(** Modelled from the spec: [IsPropertyEnabled] (cmd/config.go is not under
    src/).  Whether the boolean property is present and true. *)
Definition IsPropertyEnabled (name : string) : Cmd bool :=
  λ w, (w, Returned match config w !! name with
                    | Some (BoolValue b) => b
                    | _ => false
                    end).

(** Modelled from the spec: [AddProperty] (cmd/config.go is not under src/).
    Sets the property, overwriting what the store held under the name. *)
Definition AddProperty (name : string) (value : PropertyValue) : Cmd unit :=
  λ w, (mkProcess (<[name := value]> (config w)) (output w), Returned tt).

(** ** The collaborators *)

Module Bluez.
Record Adapter := { Name : string; Path : string }.
(** The session with the Bluetooth daemon, as far as the validators read
    it: the adapters it knows. *)
Record Bluez := { GetAdapters : list Adapter }.
End Bluez.

(** ** The option schema and the loader *)

(** Option describes a command-line option. *)
Record Option := mkOption {
  Name : string;
  Description : string;
  Value : string;
  IsBoolean : bool;
}.

Definition options : list Option := [
  mkOption "list-adapters" "List available adapters." "" true;
  mkOption "adapter" "Specify an adapter to use. (For example, hci0)" "" false;
  mkOption "receive-dir" "Specify a directory to store received files." "" false;
  mkOption "gsm-apn" "Specify GSM APN to connect to. (Required for DUN)" "" false;
  mkOption "gsm-number" "Specify GSM number to dial. (Required for DUN)" "" false;
  mkOption "adapter-states"
    "Specify adapter states to enable/disable. (For example, 'powered:yes,discoverable:yes,pairable:yes,scan:no')"
    "" false;
  mkOption "connect-bdaddr"
    "Specify device address to connect (For example, 'AA:BB:CC:DD:EE:FF')" "" false;
  mkOption "theme"
    ("Specify a theme in the HJSON format. (For example, '{ Adapter: "
     +:+ DQ +:+ "red" +:+ DQ +:+ " }')") "" false;
  mkOption "no-warning"
    "Do not display warnings when the application has initialized." "" true;
  mkOption "no-help-display"
    "Do not display help keybindings in the application." "" true;
  mkOption "confirm-on-quit"
    "Ask for confirmation before quitting the application." "" true;
  mkOption "generate" "Generate configuration." "" true;
  mkOption "version" "Print version information." "" true
].

(** What the process is started with: the directory of its configuration
    files, if it can be determined, the files there are, by path, and the
    arguments of the command line. *)
Record Env := mkEnv {
  configDir : option string;
  files : gmap string string;
  args : list (string * string);
}.

(** Modelled from the spec: [ConfigPath] (cmd/config.go is not under src/).
    It resolves the path of a configuration file; the path is resolved also
    when the file is missing. *)
Definition ConfigPath (env : Env) (name : string) : string * option string :=
  match configDir env with
  | Some dir => (dir +:+ "/" +:+ name, None)
  | None => ("", Some "Cannot get config directory")
  end.

(** Modelled from the spec: the file provider as [config.Load] sees it (the
    type of [config] is declared in cmd/config.go, not under src/).  A missing
    file has no content, and no content is not an error. *)
Definition FileProvider (env : Env) (path : string) : Koanf.Provider :=
  Koanf.mkProvider
    (inr (default "" (files env !! path)))
    (λ _, inl "file provider does not support this method").

(** [config.Load(provider, parser)]: the provider's map, or its bytes read by
    the parser, merged into the store; an error leaves the store as it is. *)
Definition Load (p : Koanf.Provider)
    (pa : option (string → string + gmap string PropertyValue))
  : Cmd (option string) :=
  λ w,
    let mp := match pa with
              | None => Koanf.Read p (config w)
              | Some unmarshal =>
                  match Koanf.ReadBytes p with
                  | inl err => inl err
                  | inr b => unmarshal b
                  end
              end in
    match mp with
    | inl err => (w, Returned (Some err))
    | inr mp =>
        (mkProcess (Koanf.Merge mp (config w)) (output w), Returned None)
    end.

(** [if err != nil { PrintError(err.Error()) }] *)
Definition check (err : option string) : Cmd unit :=
  match err with
  | Some text => PrintError text
  | None => mret tt
  end.

Section Loader.

(** The parser of the configuration file ([hjson.Parser().Unmarshal]): the
    map of a document, or an error. *)
Variable Unmarshal : string → string + gmap string PropertyValue.

(** [parse]; the usage text it installs is printed by the flag library on
    request only and is left out. *)
Definition parse (env : Env) : Cmd unit :=
  let '(configFile, err) := ConfigPath env "bluetuith.conf" in
  when (bool_decide (is_Some err)) (PrintError "Cannot get config directory");;
  let fs := Pflag.NewFlagSet in
  let fs :=
    foldl (λ fs option,
             if IsBoolean option
             then Pflag.Bool fs (Name option) false (Description option)
             else Pflag.String fs (Name option) (Value option) (Description option))
          fs options in
  let '(fs, err) := Pflag.Parse fs (args env) in
  check err;;
  err ← Load (FileProvider env configFile) (Some Unmarshal);
  check err;;
  err ← Load (Koanf.Posflag fs) None;
  check err.

End Loader.

(** ** The validators *)

Definition cmdOptionListAdapters (b : Bluez.Bluez) : Cmd unit :=
  enabled ← IsPropertyEnabled "list-adapters";
  if negb enabled then mret tt
  else
    let adapters := "List of adapters:" +:+ LF in
    let adapters :=
      foldl (λ adapters adapter,
               adapters +:+ "- " +:+ Filepath.Base (Bluez.Path adapter) +:+ LF)
            adapters (Bluez.GetAdapters b) in
    Print (Strings.TrimRight adapters LF) 0.

Definition propertyOptions : list string :=
  ["powered"; "scan"; "discoverable"; "pairable"].

Definition stateOptions : list string :=
  ["yes"; "no"; "y"; "n"; "on"; "off"].

(** The separator test passed to [strings.FieldsFunc]. *)
Definition isSeparator (r : ascii) : bool :=
  bool_decide (r = " "%char) || bool_decide (r = ":"%char).

(** The body of the loop over the tokens; [properties] and [sequence] are the
    local variables it updates. *)
Definition adapterStatesToken (vars : gmap string string * list string)
    (ps : string) : Cmd (gmap string string * list string) :=
  let '(properties, sequence) := vars in
  let property := Strings.FieldsFunc ps isSeparator in
  when (negb (bool_decide (length property = 2%nat)))
    (PrintError
       (Fmt.Sprintf "Provided property:state format '%s' is incorrect." [ps]));;
  property0 ← index property 0;
  when (negb (bool_decide (property0 ∈ propertyOptions)))
    (PrintError
       (Fmt.Sprintf
          ("Provided property '%s' is incorrect." +:+ LF +:+
           "Valid properties are '%s.'")
          [property0; Strings.Join propertyOptions ", "]));;
  state ← index property 1;
  state ←
    (if bool_decide (state ∈ ["yes"; "y"; "on"]) then mret "yes"
     else if bool_decide (state ∈ ["no"; "n"; "off"]) then mret "no"
     else
       PrintError
         (Fmt.Sprintf
            ("Provided state '%s' for property '%s' is incorrect." +:+ LF +:+
             "Valid states are '%s'.")
            [state; property0; Strings.Join stateOptions ", "]);;
       mret state);
  mret (<[property0 := state]> properties, sequence ++ [property0]).

Definition cmdOptionAdapterStates : Cmd unit :=
  optionAdapterStates ← GetProperty "adapter-states";
  if bool_decide (optionAdapterStates = "") then mret tt
  else
    let propertyAndStates := Strings.Split optionAdapterStates ","%char in
    '(properties, sequence) ←
      forRange adapterStatesToken propertyAndStates (∅, []);
    let properties := <["sequence" := Strings.Join sequence ","]> properties in
    AddProperty "adapter-states" (StringMapValue properties).

Definition cmdOptionGsm : Cmd unit :=
  optionGsmNumber ← GetProperty "gsm-number";
  optionGsmApn ← GetProperty "gsm-apn";
  when (bool_decide (optionGsmNumber = "") && negb (bool_decide (optionGsmApn = "")))
    (PrintError "Specify GSM Number.");;
  let number := if negb (bool_decide (optionGsmNumber = ""))
                then optionGsmNumber else "*99#" in
  AddProperty "gsm-apn" (StringValue optionGsmApn);;
  AddProperty "gsm-number" (StringValue number).

(** [Version] is a package-level string set at build time; it is a parameter
    of the validator here. *)
Definition cmdOptionVersion (Version : string) : Cmd unit :=
  optionVersion ← IsPropertyEnabled "version";
  if negb optionVersion then mret tt
  else
    let text := "Bluetuith v%s" in
    let versionInfo := Strings.Split Version "@"%char in
    when (bool_decide (length versionInfo < 2)%nat)
      (Print (Fmt.Sprintf text [Version]) 0);;
    let text := text +:+ " (%s)" in
    v0 ← index versionInfo 0;
    v1 ← index versionInfo 1;
    Print (Fmt.Sprintf text [v0; v1]) 0.

(** ** The validators that consult the Bluetooth session or the file system *)

Global Instance Adapter_eq_dec : EqDecision Bluez.Adapter.
Proof. solve_decision. Defined.

Module Session.

Record Device := { Address : string }.

(** Modelled from the spec: the session with the Bluetooth daemon (package
    bluez, not under src/) as the validators use it: the adapters it knows,
    the adapter it selects when none is named, the current adapter (the zero
    adapter when none is resolved) and the devices known for an adapter. *)
Record State := mkState {
  Known : Bluez.Bluez;
  Default : Bluez.Adapter;
  Current : Bluez.Adapter;
  DevicesOf : Bluez.Adapter → list Device;
}.

(** [b.SetCurrentAdapter(adapter...)]: the adapter given, or the default of
    the session when none is given. *)
Definition SetCurrentAdapter (b : State) (adapter : option Bluez.Adapter) : State :=
  mkState (Known b) (Default b) (default (Default b) adapter) (DevicesOf b).

Definition GetCurrentAdapter (b : State) : Bluez.Adapter := Current b.

(** [b.GetDevices()]: the devices of the current adapter. *)
Definition GetDevices (b : State) : list Device := DevicesOf b (Current b).

End Session.

(** [bluez.Adapter{}] *)
Definition zeroAdapter : Bluez.Adapter := {| Bluez.Name := ""; Bluez.Path := "" |}.

(** The loop over the adapters: the first one whose base path segment is the
    option. *)
Fixpoint adapterNamed (optionAdapter : string) (adapters : list Bluez.Adapter)
  : option Bluez.Adapter :=
  match adapters with
  | [] => None
  | adapter :: adapters' =>
      if bool_decide (optionAdapter = Filepath.Base (Bluez.Path adapter))
      then Some adapter
      else adapterNamed optionAdapter adapters'
  end.

(** The validator changes the session it is given; it returns the session
    as it leaves it. *)
Definition cmdOptionAdapter (b : Session.State) : Cmd Session.State :=
  optionAdapter ← GetProperty "adapter";
  if bool_decide (optionAdapter = "") then
    mret (Session.SetCurrentAdapter b None)
  else
    match adapterNamed optionAdapter (Bluez.GetAdapters (Session.Known b)) with
    | Some adapter => mret (Session.SetCurrentAdapter b (Some adapter))
    | None =>
        PrintError (optionAdapter +:+ ": The adapter does not exist.");;
        mret b
    end.

(** The loop over the devices: the first one with the address. *)
Fixpoint deviceAt (address : string) (devices : list Session.Device)
  : option Session.Device :=
  match devices with
  | [] => None
  | device :: devices' =>
      if bool_decide (Session.Address device = address)
      then Some device
      else deviceAt address devices'
  end.

Definition cmdOptionConnectBDAddr (b : Session.State) : Cmd unit :=
  optionConnectBDAddr ← GetProperty "connect-bdaddr";
  if bool_decide (optionConnectBDAddr = "") then mret tt
  else
    let adapter := Session.GetCurrentAdapter b in
    if bool_decide (adapter = zeroAdapter) then mret tt
    else
      match deviceAt optionConnectBDAddr (Session.GetDevices b) with
      | Some device =>
          AddProperty "connect-bdaddr" (StringValue (Session.Address device))
      | None =>
          PrintError
            (Fmt.Sprintf "No device with address '%s' found on adapter '%s' (%s)"
               [optionConnectBDAddr; Bluez.Name adapter;
                Filepath.Base (Bluez.Path adapter)])
      end.

Module Os.

(** What [os.Stat] tells of a path, as far as the validator reads it. *)
Record FileInfo := { IsDir : bool }.

End Os.

(** The file system is a parameter: [Stat path] is the result of
    [os.Stat(path)], [None] when it is an error. *)
Definition cmdOptionReceiveDir (Stat : string → option Os.FileInfo) : Cmd unit :=
  optionReceiveDir ← GetProperty "receive-dir";
  if bool_decide (optionReceiveDir = "") then mret tt
  else
    match Stat optionReceiveDir with
    | Some statpath =>
        if Os.IsDir statpath
        then AddProperty "receive-dir" (StringValue optionReceiveDir)
        else PrintError (optionReceiveDir +:+ ": Directory is not accessible.")
    | None => PrintError (optionReceiveDir +:+ ": Directory is not accessible.")
    end.

(** [os.Exit(status)] *)
Definition Exit (status : Z) : Cmd unit := λ w, (w, Exited status).

(** [generate] writes the configuration; it is declared elsewhere in the
    package and is a parameter here. *)
Definition cmdOptionGenerate (generate : Cmd unit) : Cmd unit :=
  optionGenerate ← IsPropertyEnabled "generate";
  if negb optionGenerate then mret tt
  else
    generate;;
    Exit 0.

(** ** The usage text *)

Definition TAB : string := String "009"%char "".

(** [strings.ReplaceAll(s, old, new)] for a one-byte [old] (the call site
    passes a newline). *)
Fixpoint ReplaceAll (s : string) (old : ascii) (new : string) : string :=
  match s with
  | EmptyString => ""
  | String c s' =>
      if bool_decide (c = old) then new +:+ ReplaceAll s' old new
      else String c (ReplaceAll s' old new)
  end.

(** The body of the function that [fs.Usage] passes to [fs.VisitAll]: what it
    adds to the usage text for the flag of the given name and usage. *)
Definition usageFlag (name usage : string) : string :=
  let s := Fmt.Sprintf "  --%s" [name] in
  let s :=
    if bool_decide (name = "adapter") then s +:+ " <adapter>"
    else if bool_decide (name = "adapter-states") then s +:+ " [<property>:<state>]"
    else if bool_decide (name = "connect-bdaddr") then s +:+ " <address>"
    else if bool_decide (name = "receive-dir") then s +:+ " <dir>"
    else if bool_decide (name = "gsm-apn") then s +:+ " <apn>"
    else if bool_decide (name = "gsm-number") then s +:+ " <number>"
    else if bool_decide (name = "set-theme") then s +:+ " <theme>"
    else s in
  let s :=
    if bool_decide (String.length s ≤ 4)%nat then s +:+ TAB
    else s +:+ LF +:+ "    " +:+ TAB in
  let s := s +:+ ReplaceAll usage "010"%char (LF +:+ "    " +:+ TAB) in
  s +:+ LF.

(** ** The vocabulary of the properties *)

(** The token [ps] reads as the property [pc.1] with a state whose canonical
    form is [pc.2]. *)
Definition validToken (ps : string) (pc : string * string) : Prop :=
  ∃ state,
    Strings.FieldsFunc ps isSeparator = [pc.1; state] ∧
    pc.1 ∈ propertyOptions ∧
    (state ∈ ["yes"; "y"; "on"] ∧ pc.2 = "yes" ∨
     state ∈ ["no"; "n"; "off"] ∧ pc.2 = "no").

(** The token does not split into exactly two fields, or its property field
    is not a property, or its state field is not a state. *)
Definition malformed (ps : string) : Prop :=
  let fields := Strings.FieldsFunc ps isSeparator in
  length fields ≠ 2%nat ∨
  (∃ property, fields !! 0%nat = Some property ∧ property ∉ propertyOptions) ∨
  (∃ state, fields !! 1%nat = Some state ∧ state ∉ stateOptions).

(** The process after a fatal failure with the diagnostic [text]. *)
Definition failedWith {A} (w : Process) (text : string) : Process * Outcome A :=
  (mkProcess (config w) (output w ++ [(Stderr, text)]), Exited 1).

(** The local variables after a run of valid tokens. *)
Definition record (vars : gmap string string * list string)
    (pairs : list (string * string)) : gmap string string * list string :=
  (foldl (λ m pc, <[pc.1 := pc.2]> m) vars.1 pairs, vars.2 ++ pairs.*1).

(** Strings made of separators only, and strings free of separators. *)
Fixpoint allChars (f : ascii → bool) (s : string) : bool :=
  match s with
  | EmptyString => true
  | String c s' => f c && allChars f s'
  end.

Definition allSeparators (f : ascii → bool) (s : string) : Prop :=
  allChars f s = true.

Definition noSeparator (f : ascii → bool) (s : string) : Prop :=
  allChars (λ c, negb (f c)) s = true.

(** The flag set that [parse] defines from [options], before it parses the
    command line. *)
Definition registeredFlags : Pflag.FlagSet :=
  foldl (λ fs option,
           if IsBoolean option
           then Pflag.Bool fs (Name option) false (Description option)
           else Pflag.String fs (Name option) (Value option) (Description option))
        Pflag.NewFlagSet options.

(** The path of the configuration file in the directory [dir]. *)
Definition configFileIn (dir : string) : string := dir +:+ "/" +:+ "bluetuith.conf".

(** A flag holds a boolean or a string, never a mapping. *)
Definition scalar (v : PropertyValue) : Prop :=
  match v with
  | StringMapValue _ => False
  | _ => True
  end.

(** A stand-in for the parser of the configuration file in the examples: it
    reads the empty document and one document of two lines, and rejects every
    other text. *)
Definition sampleUnmarshal (document : string)
  : string + gmap string PropertyValue :=
  if bool_decide (document = "") then inr ∅
  else if bool_decide (document = "adapter: hci1" +:+ LF +:+ "gsm-apn: internet")
  then inr {[ "adapter" := StringValue "hci1";
              "gsm-apn" := StringValue "internet" ]}
  else inl "Found a punctuator character when expecting a quoteless string".

(** ** Tactics *)

(** Membership in a list of literals, by evaluation. *)
Ltac solve_elem := by apply (bool_decide_unpack _); vm_compute.

(** Membership of a variable in a list of literals, case by case. *)
Ltac cases_elem H :=
  repeat (apply elem_of_cons in H as [->|H]); [..|by apply elem_of_nil in H].

(** A literal is not in a list of literals, by evaluation. *)
Ltac refute_elem H := apply (bool_decide_pack _) in H; by vm_compute in H.

Ltac run_cmd :=
  unfold mbind, Cmd_bind, mret, Cmd_mret, when, index, PrintError, Print,
    GetProperty, IsPropertyEnabled, AddProperty, failedWith; simpl.

(** ** Facts about the library functions *)

Section StringFacts.

Import Strings.

Lemma contains_app c (a b : string) :
  contains c (a +:+ b) = contains c a || contains c b.
Proof.
  induction a as [|d a IH]; simpl; [done|].
  rewrite IH. by rewrite orb_assoc.
Qed.

(** A string without the separator is a single segment. *)
Lemma Split_no_sep (s : string) (sep : ascii) :
  contains sep s = false → Split s sep = [s].
Proof.
  induction s as [|c s IH]; simpl; [done|].
  intros [Hc Hs]%orb_false_elim.
  apply bool_decide_eq_false in Hc.
  rewrite bool_decide_eq_false_2 by congruence.
  by rewrite IH.
Qed.

(** The first separator ends the first segment. *)
Lemma Split_app_sep (e rest : string) (sep : ascii) :
  contains sep e = false →
  Split (e +:+ String sep rest) sep = e :: Split rest sep.
Proof.
  induction e as [|c e IH]; simpl.
  - intros _. by rewrite bool_decide_eq_true_2.
  - intros [Hc He]%orb_false_elim.
    apply bool_decide_eq_false in Hc.
    rewrite bool_decide_eq_false_2 by congruence.
    by rewrite IH.
Qed.

(** Splitting undoes joining, for segments free of the separator. *)
Lemma Split_Join (elems : list string) (sep : ascii) :
  elems ≠ [] →
  Forall (λ e, contains sep e = false) elems →
  Split (Join elems (String sep "")) sep = elems.
Proof.
  induction elems as [|e [|e' es] IH]; [done| |].
  - intros _ He. inversion_clear He. by apply Split_no_sep.
  - intros _ He. inversion_clear He as [|? ? He1 He2].
    change (Join (e :: e' :: es) (String sep ""))
      with (e +:+ String sep (Join (e' :: es) (String sep ""))).
    rewrite Split_app_sep by done. f_equal. by apply IH.
Qed.

(** A run of separators between fields is skipped. *)
Lemma fieldsFrom_separators f (a rest : string) :
  allSeparators f a → fieldsFrom f None (a +:+ rest) = fieldsFrom f None rest.
Proof.
  unfold allSeparators. induction a as [|c a IH]; simpl; [done|].
  intros [Hc Ha]%andb_true_iff. rewrite Hc. by apply IH.
Qed.

(** A non-empty run of separators ends the field being read. *)
Lemma fieldsFrom_end_field f w (a rest : string) :
  a ≠ "" → allSeparators f a →
  fieldsFrom f (Some w) (a +:+ rest) = w :: fieldsFrom f None rest.
Proof.
  destruct a as [|c a]; [done|]. intros _ [Hc Ha]%andb_true_iff. simpl.
  rewrite Hc. f_equal. by apply fieldsFrom_separators.
Qed.

Lemma append_cons c (a b : string) : String c a +:+ b = String c (a +:+ b).
Proof. reflexivity. Qed.

Lemma append_assoc (a b c : string) : (a +:+ b) +:+ c = a +:+ (b +:+ c).
Proof. induction a as [|d a IH]; [done|]. rewrite !append_cons. by f_equal. Qed.

Lemma append_empty_r (a : string) : a +:+ "" = a.
Proof. induction a as [|d a IH]; [done|]. rewrite append_cons. by f_equal. Qed.

(** The characters of a field are accumulated. *)
Lemma fieldsFrom_field f cur (p rest : string) :
  noSeparator f p → p ≠ "" →
  fieldsFrom f cur (p +:+ rest)
  = fieldsFrom f (Some (default "" cur +:+ p)) rest.
Proof.
  unfold noSeparator. revert cur. induction p as [|c p IH]; [done|].
  intros cur [Hc Hp]%andb_true_iff _. simpl.
  apply negb_true_iff in Hc. rewrite Hc.
  destruct p as [|c' p].
  - done.
  - rewrite IH by done. simpl. by rewrite append_assoc.
Qed.

(** Separators after the last field add nothing. *)
Lemma fieldsFrom_trailing f w (c : string) :
  allSeparators f c → fieldsFrom f (Some w) c = [w].
Proof.
  intros Hc. destruct c as [|d c]; [done|].
  rewrite <- (append_empty_r (String d c)).
  by rewrite fieldsFrom_end_field.
Qed.

(** A token made of two fields, with any separators around and between
    them, splits into exactly these two fields. *)
Lemma FieldsFunc_two f (a p b s c : string) :
  allSeparators f a → allSeparators f b → allSeparators f c →
  b ≠ "" → noSeparator f p → p ≠ "" → noSeparator f s → s ≠ "" →
  FieldsFunc (a +:+ p +:+ b +:+ s +:+ c) f = [p; s].
Proof.
  intros Ha Hb Hc Hb0 Hp Hp0 Hs Hs0. unfold FieldsFunc.
  rewrite fieldsFrom_separators by done.
  rewrite fieldsFrom_field by done. simpl.
  rewrite fieldsFrom_end_field by done.
  rewrite fieldsFrom_field by done. simpl.
  by rewrite fieldsFrom_trailing.
Qed.

End StringFacts.

(** ** Adapter states: the tokens *)

Lemma failedWith_fatal {A} w text : fatal (@failedWith A w text).2.
Proof. by exists 1. Qed.

Lemma state_yes_not_no state :
  state ∈ ["no"; "n"; "off"] → state ∉ ["yes"; "y"; "on"].
Proof.
  intros Hn Hy. cases_elem Hn;
    repeat (apply elem_of_cons in Hy as [Hy|Hy]; [done|]);
    by apply elem_of_nil in Hy.
Qed.

(** A valid token is recorded and the loop goes on. *)
Lemma token_valid vars ps pc w :
  validToken ps pc →
  adapterStatesToken vars ps w
  = (w, Returned (<[pc.1 := pc.2]> vars.1, vars.2 ++ [pc.1])).
Proof.
  intros (state & Hf & Hp & Hs). destruct vars as [properties sequence].
  unfold adapterStatesToken. rewrite Hf. run_cmd.
  rewrite (bool_decide_eq_true_2 _ Hp). simpl.
  destruct Hs as [[Hy ->]|[Hn ->]].
  - by rewrite (bool_decide_eq_true_2 _ Hy).
  - rewrite (bool_decide_eq_false_2 _ (state_yes_not_no _ Hn)).
    by rewrite (bool_decide_eq_true_2 _ Hn).
Qed.

(** A malformed token is fatal: one diagnostic, and the loop is left. *)
Lemma token_malformed vars ps w :
  malformed ps →
  ∃ text, adapterStatesToken vars ps w = failedWith w text.
Proof.
  unfold malformed. intros Hbad. destruct vars as [properties sequence].
  unfold adapterStatesToken.
  destruct (Strings.FieldsFunc ps isSeparator) as [|p [|s [|x l]]] eqn:Hf;
    simpl in Hbad; try (run_cmd; eauto; fail).
  run_cmd. destruct (decide (p ∈ propertyOptions)) as [Hp|Hp].
  - rewrite (bool_decide_eq_true_2 _ Hp). simpl.
    destruct Hbad as [?|[(p' & [= <-] & ?)|(s' & [= <-] & Hs)]]; [done..|].
    rewrite !bool_decide_eq_false_2; [eauto| |].
    + intros Hn. apply Hs. cases_elem Hn; solve_elem.
    + intros Hy. apply Hs. cases_elem Hy; solve_elem.
  - rewrite (bool_decide_eq_false_2 _ Hp). simpl. eauto.
Qed.

(** Every token is valid or malformed. *)
Lemma token_cases ps : (∃ pc, validToken ps pc) ∨ malformed ps.
Proof.
  unfold validToken, malformed.
  destruct (Strings.FieldsFunc ps isSeparator) as [|p [|s [|x l]]] eqn:Hf;
    simpl; try (right; left; done).
  destruct (decide (p ∈ propertyOptions)) as [Hp|Hp]; [|right; right; left; eauto].
  destruct (decide (s ∈ ["yes"; "y"; "on"])) as [Hy|Hy].
  { left. exists (p, "yes"), s. eauto. }
  destruct (decide (s ∈ ["no"; "n"; "off"])) as [Hn|Hn].
  { left. exists (p, "no"), s. eauto. }
  right. right. right. exists s. split; [done|].
  intros Hs. cases_elem Hs; [apply Hy|apply Hn|apply Hy|apply Hn|apply Hy|apply Hn];
    solve_elem.
Qed.

(** A valid token is not malformed. *)
Lemma valid_not_malformed ps pc : validToken ps pc → ¬ malformed ps.
Proof.
  intros (state & Hf & Hp & Hs). unfold malformed. rewrite Hf. simpl.
  intros [?|[(p' & [= <-] & ?)|(s' & [= <-] & Hs')]]; [done..|].
  apply Hs'. destruct Hs as [[Hs _]|[Hs _]]; cases_elem Hs; solve_elem.
Qed.

(** ** Adapter states: the loop *)

Lemma forRange_valid tokens pairs vars w :
  Forall2 validToken tokens pairs →
  forRange adapterStatesToken tokens vars w = (w, Returned (record vars pairs)).
Proof.
  intros Hv. revert vars. induction Hv as [|ps pc tokens pairs Hps _ IH]; intros vars.
  - destruct vars. unfold record. simpl. by rewrite app_nil_r.
  - simpl. unfold mbind, Cmd_bind. rewrite (token_valid _ _ _ _ Hps).
    rewrite IH. unfold record. simpl. by rewrite <- app_assoc.
Qed.

Lemma forRange_malformed tokens vars w :
  Exists malformed tokens →
  ∃ text, forRange adapterStatesToken tokens vars w = failedWith w text.
Proof.
  revert vars. induction tokens as [|ps tokens IH]; intros vars Hbad.
  { by apply Exists_nil in Hbad. }
  simpl. unfold mbind, Cmd_bind.
  destruct (token_cases ps) as [[pc Hps]|Hps].
  - rewrite (token_valid _ _ _ _ Hps). apply IH.
    apply Exists_cons in Hbad as [Hbad|Hbad]; [|done].
    by destruct (valid_not_malformed _ _ Hps).
  - destruct (token_malformed vars ps w Hps) as [text ->]. by exists text.
Qed.

(** The mapping built by the loop. *)
Lemma record_dom (m : gmap string string) (pairs : list (string * string)) :
  dom (foldl (λ m pc, <[pc.1 := pc.2]> m) m pairs)
  = dom m ∪ list_to_set pairs.*1.
Proof.
  revert m. induction pairs as [|pc pairs IH]; intros m; simpl.
  - by rewrite (right_id_L ∅ (∪)).
  - rewrite IH, dom_insert_L.
    by rewrite (assoc_L (∪)), (comm_L (∪) (dom m)).
Qed.

Lemma record_lookup_other (m : gmap string string) pairs (k : string) :
  k ∉ pairs.*1 →
  foldl (λ m pc, <[pc.1 := pc.2]> m) m pairs !! k = m !! k.
Proof.
  revert m. induction pairs as [|pc pairs IH]; intros m Hk; simpl; [done|].
  apply not_elem_of_cons in Hk as [Hk1 Hk2].
  rewrite IH by done. by rewrite lookup_insert_ne.
Qed.

(** The last token that names a property decides its state. *)
Lemma record_lookup_last (m : gmap string string) pairs (i : nat) p c :
  pairs !! i = Some (p, c) →
  (∀ j c', (i < j)%nat → pairs !! j ≠ Some (p, c')) →
  foldl (λ m pc, <[pc.1 := pc.2]> m) m pairs !! p = Some c.
Proof.
  revert m i. induction pairs as [|pc pairs IH]; intros m i Hi Hlast; [done|].
  simpl. destruct i as [|i]; simpl in Hi.
  - injection Hi as ->. rewrite record_lookup_other.
    + simpl. by rewrite lookup_insert_eq.
    + intros Hin. apply list_elem_of_fmap in Hin as ([p' c'] & Hp & Hin).
      simpl in Hp. subst p'.
      apply list_elem_of_lookup in Hin as [j Hj].
      by apply (Hlast (S j) c'); [lia|].
  - apply (IH _ i); [done|]. intros j c' Hij.
    apply (Hlast (S j) c'). lia.
Qed.

Lemma property_not_sequence p : p ∈ propertyOptions → p ≠ "sequence".
Proof. intros Hp. cases_elem Hp; done. Qed.

Lemma property_no_comma p :
  p ∈ propertyOptions → Strings.contains ","%char p = false.
Proof. intros Hp. cases_elem Hp; done. Qed.

Lemma valid_pairs_properties tokens pairs :
  Forall2 validToken tokens pairs → Forall (λ p, p ∈ propertyOptions) pairs.*1.
Proof.
  induction 1 as [|ps pc tokens pairs (state & _ & Hp & _) _ IH]; simpl;
    constructor; done.
Qed.

(** ** Adapter states: the validator *)

Lemma Split_nonempty_input tokens pairs input :
  tokens = Strings.Split input ","%char →
  Forall2 validToken tokens pairs → input ≠ "" ∧ pairs ≠ [].
Proof.
  intros -> Hv. split.
  - intros ->. simpl in Hv. apply Forall2_cons_inv_l in Hv
      as (pc & pairs' & (state & Hf & _) & _ & _). done.
  - intros ->. apply Forall2_nil_inv_r in Hv.
    destruct input as [|c input]; simpl in Hv; [done|].
    case_bool_decide; [done|].
    by destruct (Strings.Split input ",").
Qed.

(** All tokens valid: the mapping of the loop, with the joined sequence under
    "sequence", replaces the raw string in the store. *)
Lemma cmdOptionAdapterStates_valid w input pairs :
  (GetProperty "adapter-states" w).2 = Returned input →
  Forall2 validToken (Strings.Split input ","%char) pairs →
  cmdOptionAdapterStates w
  = (mkProcess
       (<["adapter-states" :=
            StringMapValue
              (<["sequence" := Strings.Join pairs.*1 ","]>
                 (foldl (λ m pc, <[pc.1 := pc.2]> m) ∅ pairs))]> (config w))
       (output w),
     Returned tt).
Proof.
  intros Hget Hv.
  destruct (Split_nonempty_input _ _ _ eq_refl Hv) as [Hne _].
  unfold cmdOptionAdapterStates, mbind, Cmd_bind.
  unfold GetProperty in *. simpl in Hget. injection Hget as Hget.
  rewrite Hget. rewrite (bool_decide_eq_false_2 _ Hne).
  by rewrite (forRange_valid _ _ _ _ Hv).
Qed.

(** A malformed token: the validator fails before it writes to the store. *)
Lemma cmdOptionAdapterStates_malformed w input :
  (GetProperty "adapter-states" w).2 = Returned input →
  input ≠ "" →
  Exists malformed (Strings.Split input ","%char) →
  ∃ text, cmdOptionAdapterStates w = failedWith w text.
Proof.
  intros Hget Hne Hbad.
  unfold cmdOptionAdapterStates, mbind, Cmd_bind.
  unfold GetProperty in *. simpl in Hget. injection Hget as Hget.
  rewrite Hget. rewrite (bool_decide_eq_false_2 _ Hne).
  destruct (forRange_malformed _ (∅, []) w Hbad) as [text ->].
  by exists text.
Qed.

(** The option is not supplied: nothing happens. *)
Lemma cmdOptionAdapterStates_empty w :
  (GetProperty "adapter-states" w).2 = Returned "" →
  cmdOptionAdapterStates w = (w, Returned tt).
Proof.
  intros Hget. unfold cmdOptionAdapterStates, mbind, Cmd_bind.
  unfold GetProperty in *. simpl in Hget. injection Hget as Hget.
  by rewrite Hget.
Qed.

(** ** Adapter states: the properties *)

(** C1. An adapter-states option with a malformed token is rejected as a
    whole: the validator fails fatally, with one diagnostic on the error
    stream, and the property store is the one it started with; no mapping,
    partial or not, is written.  (The empty string is the option that was not
    supplied, see [cmdOptionAdapterStates_empty].) *)
Theorem adapter_states_malformed_rejected w input :
  (GetProperty "adapter-states" w).2 = Returned input →
  input ≠ "" →
  Exists malformed (Strings.Split input ","%char) →
  ∃ w' status text,
    cmdOptionAdapterStates w = (w', Exited status) ∧
    status ≠ 0 ∧
    config w' = config w ∧
    output w' = output w ++ [(Stderr, text)].
Proof.
  intros Hget Hne Hbad.
  destruct (cmdOptionAdapterStates_malformed w input Hget Hne Hbad) as [text ->].
  by eexists _, 1, text.
Qed.

Lemma adapter_states_malformed_rejected_witness :
  let w := mkProcess
             {[ "adapter-states" :=
                  StringValue "powered: yes, scan:off, Pairable:Yes" ]} [] in
  ∃ w' status text,
    cmdOptionAdapterStates w = (w', Exited status) ∧
    status ≠ 0 ∧
    config w' = config w ∧
    output w' = output w ++ [(Stderr, text)].
Proof.
  intros w.
  apply (adapter_states_malformed_rejected w "powered: yes, scan:off, Pairable:Yes").
  - reflexivity.
  - discriminate.
  - replace (Strings.Split _ _)
      with ["powered: yes"; " scan:off"; " Pairable:Yes"] by reflexivity.
    do 2 apply Exists_cons_tl. apply Exists_cons_hd.
    right. left. exists "Pairable". split; [reflexivity|].
    intros H. refute_elem H.
Defined.

(** C2. A token with a property and a state field: the states yes, y and on
    are stored as "yes", the states no, n and off as "no", and any other
    state is fatal, with a diagnostic that lists the valid states. *)
Theorem state_normalization vars ps property state w :
  Strings.FieldsFunc ps isSeparator = [property; state] →
  property ∈ propertyOptions →
  (state ∈ ["yes"; "y"; "on"] →
   adapterStatesToken vars ps w
   = (w, Returned (<[property := "yes"]> vars.1, vars.2 ++ [property]))) ∧
  (state ∈ ["no"; "n"; "off"] →
   adapterStatesToken vars ps w
   = (w, Returned (<[property := "no"]> vars.1, vars.2 ++ [property]))) ∧
  (state ∉ ["yes"; "y"; "on"; "no"; "n"; "off"] →
   adapterStatesToken vars ps w
   = failedWith w
       ("Provided state '" +:+ state +:+ "' for property '" +:+ property
        +:+ "' is incorrect." +:+ LF
        +:+ "Valid states are 'yes, no, y, n, on, off'.")).
Proof.
  intros Hf Hp. split; [|split]; intros Hs.
  - apply (token_valid vars ps (property, "yes")). exists state. auto.
  - apply (token_valid vars ps (property, "no")). exists state. auto.
  - destruct vars as [properties sequence].
    unfold adapterStatesToken. rewrite Hf. run_cmd.
    rewrite (bool_decide_eq_true_2 _ Hp). simpl.
    rewrite !bool_decide_eq_false_2; [done| |].
    + intros Hn. apply Hs. cases_elem Hn; solve_elem.
    + intros Hy. apply Hs. cases_elem Hy; solve_elem.
Qed.

Lemma state_normalization_witness :
  let w := mkProcess ∅ [] in
  adapterStatesToken (∅, []) "scan : on" w
  = (w, Returned (<["scan" := "yes"]> ∅, ["scan"])) ∧
  adapterStatesToken (∅, []) "scan:maybe" w
  = failedWith w
      ("Provided state 'maybe' for property 'scan' is incorrect." +:+ LF
       +:+ "Valid states are 'yes, no, y, n, on, off'.").
Proof.
  intros w. split.
  - apply (state_normalization (∅, []) "scan : on" "scan" "on" w);
      [reflexivity|solve_elem|solve_elem].
  - apply (state_normalization (∅, []) "scan:maybe" "scan" "maybe" w);
      [reflexivity|solve_elem|].
    intros H. refute_elem H.
Defined.

(** C3. All tokens valid: the recorded sequence has one entry per token, the
    property names in the order of the input, duplicates kept; the mapping
    holds for each property the state of the last token that names it. *)
Theorem adapter_states_sequence_and_mapping w input pairs :
  (GetProperty "adapter-states" w).2 = Returned input →
  Forall2 validToken (Strings.Split input ","%char) pairs →
  ∃ m recorded,
    cmdOptionAdapterStates w
    = (mkProcess (<["adapter-states" := StringMapValue m]> (config w)) (output w),
       Returned tt) ∧
    m !! "sequence" = Some recorded ∧
    Strings.Split recorded ","%char = pairs.*1 ∧
    length (Strings.Split recorded ","%char)
    = length (Strings.Split input ","%char) ∧
    (∀ i property state,
       pairs !! i = Some (property, state) →
       (∀ j state', (i < j)%nat → pairs !! j ≠ Some (property, state')) →
       m !! property = Some state).
Proof.
  intros Hget Hv.
  rewrite (cmdOptionAdapterStates_valid w input pairs Hget Hv).
  destruct (Split_nonempty_input _ _ _ eq_refl Hv) as [_ Hpairs].
  pose proof (valid_pairs_properties _ _ Hv) as Hprops.
  assert (Strings.Split (Strings.Join pairs.*1 ",") "," = pairs.*1) as Hsplit.
  { apply Split_Join.
    - by destruct pairs.
    - eapply Forall_impl; [exact Hprops|]. apply property_no_comma. }
  eexists _, _. split; [reflexivity|]. split; [apply lookup_insert_eq|].
  split; [exact Hsplit|]. split.
  { rewrite Hsplit, length_fmap. symmetry. by eapply Forall2_length. }
  intros i property state Hi Hlast.
  rewrite lookup_insert_ne.
  - by apply (record_lookup_last _ _ i).
  - apply not_eq_sym, property_not_sequence.
    apply (proj1 (Forall_forall _ _) Hprops).
    apply list_elem_of_fmap. exists (property, state). split; [done|].
    by eapply list_elem_of_lookup_2.
Qed.

Lemma adapter_states_sequence_and_mapping_witness :
  let w := mkProcess {[ "adapter-states" := StringValue "scan:on,powered:off" ]} [] in
  ∃ m recorded,
    cmdOptionAdapterStates w
    = (mkProcess (<["adapter-states" := StringMapValue m]> (config w)) (output w),
       Returned tt) ∧
    m !! "sequence" = Some recorded ∧
    Strings.Split recorded ","%char = ["scan"; "powered"] ∧
    length (Strings.Split recorded ","%char) = 2%nat ∧
    (∀ i property state,
       [("scan", "yes"); ("powered", "no")] !! i = Some (property, state) →
       (∀ j state', (i < j)%nat →
          [("scan", "yes"); ("powered", "no")] !! j ≠ Some (property, state')) →
       m !! property = Some state).
Proof.
  intros w.
  apply (adapter_states_sequence_and_mapping w "scan:on,powered:off"
           [("scan", "yes"); ("powered", "no")]).
  - reflexivity.
  - replace (Strings.Split _ _) with ["scan:on"; "powered:off"] by reflexivity.
    repeat constructor.
    + exists "on". split; [reflexivity|]. split; [solve_elem|].
      left. split; [solve_elem|reflexivity].
    + exists "off". split; [reflexivity|]. split; [solve_elem|].
      right. split; [solve_elem|reflexivity].
Defined.

(** C9. A token is split on every space and colon and empty fields are
    dropped: whatever separators stand before, between and after its two
    fields, the token reads as these two fields, and it is accepted when the
    fields are a property and a state. *)
Theorem token_accepts_any_separators (a property b state c : string) :
  allSeparators isSeparator a →
  allSeparators isSeparator b → b ≠ "" →
  allSeparators isSeparator c →
  noSeparator isSeparator property → property ≠ "" →
  noSeparator isSeparator state → state ≠ "" →
  let ps := a +:+ property +:+ b +:+ state +:+ c in
  Strings.FieldsFunc ps isSeparator = [property; state] ∧
  (∀ canonical,
     validToken ps (property, canonical) →
     ∀ vars w,
       adapterStatesToken vars ps w
       = (w, Returned (<[property := canonical]> vars.1, vars.2 ++ [property]))) ∧
  (property ∈ propertyOptions → state ∈ stateOptions →
   ∃ canonical, validToken ps (property, canonical)).
Proof.
  intros Ha Hb Hb0 Hc Hp Hp0 Hs Hs0 ps.
  assert (Strings.FieldsFunc ps isSeparator = [property; state]) as Hf.
  { by apply FieldsFunc_two. }
  split; [exact Hf|]. split.
  - intros canonical Hv vars w. by apply (token_valid vars ps (property, canonical)).
  - intros Hprop Hstate.
    destruct (decide (state ∈ ["yes"; "y"; "on"])) as [Hy|Hy].
    + exists "yes", state. auto.
    + exists "no", state. split; [done|]. split; [done|]. right. split; [|done].
      cases_elem Hstate; try solve_elem; destruct Hy; solve_elem.
Qed.

Lemma token_accepts_any_separators_witness :
  let w := mkProcess ∅ [] in
  Strings.FieldsFunc " powered :: on " isSeparator = ["powered"; "on"] ∧
  adapterStatesToken (∅, []) " powered :: on " w
  = (w, Returned (<["powered" := "yes"]> ∅, ["powered"])).
Proof.
  intros w.
  destruct (token_accepts_any_separators " " "powered" " :: " "on" " ")
    as (Hf & Hrun & _); try reflexivity; try discriminate.
  split; [exact Hf|].
  apply (Hrun "yes").
  exists "on". split; [exact Hf|]. split; [solve_elem|].
  left. split; [solve_elem|reflexivity].
Defined.

(** The three spellings of one token. *)
Example token_spellings :
  Strings.FieldsFunc "powered::yes" isSeparator = ["powered"; "yes"] ∧
  Strings.FieldsFunc "powered : on" isSeparator = ["powered"; "on"] ∧
  Strings.FieldsFunc "powered: yes" isSeparator = ["powered"; "yes"].
Proof. by vm_compute. Qed.

(** C10. After a successful validation the store holds, under
    "adapter-states", one string-keyed mapping: its keys are the validated
    property names and the key "sequence", and under "sequence" it holds the
    property names in order, joined by commas.  The sequence is an entry of
    the mapping of the states, not a structure of its own. *)
Theorem adapter_states_stored_mapping w input pairs :
  (GetProperty "adapter-states" w).2 = Returned input →
  Forall2 validToken (Strings.Split input ","%char) pairs →
  ∃ w' m,
    cmdOptionAdapterStates w = (w', Returned tt) ∧
    config w' = <["adapter-states" := StringMapValue m]> (config w) ∧
    dom m = {["sequence"]} ∪ list_to_set pairs.*1 ∧
    m !! "sequence" = Some (Strings.Join pairs.*1 ",").
Proof.
  intros Hget Hv.
  rewrite (cmdOptionAdapterStates_valid w input pairs Hget Hv).
  eexists _, _. split; [reflexivity|]. split; [reflexivity|]. split.
  - rewrite dom_insert_L, record_dom, dom_empty_L.
    by rewrite (left_id_L ∅ (∪)).
  - apply lookup_insert_eq.
Qed.

Lemma adapter_states_stored_mapping_witness :
  let w := mkProcess {[ "adapter-states" := StringValue "scan:on,powered:off,scan n" ]} [] in
  ∃ w' m,
    cmdOptionAdapterStates w = (w', Returned tt) ∧
    config w' = <["adapter-states" := StringMapValue m]> (config w) ∧
    dom m = {["sequence"]} ∪ list_to_set ["scan"; "powered"; "scan"] ∧
    m !! "sequence" = Some "scan,powered,scan".
Proof.
  intros w.
  apply (adapter_states_stored_mapping w "scan:on,powered:off,scan n"
           [("scan", "yes"); ("powered", "no"); ("scan", "no")]).
  - reflexivity.
  - replace (Strings.Split _ _) with ["scan:on"; "powered:off"; "scan n"]
      by reflexivity.
    repeat constructor.
    + exists "on". split; [reflexivity|]. split; [solve_elem|].
      left. split; [solve_elem|reflexivity].
    + exists "off". split; [reflexivity|]. split; [solve_elem|].
      right. split; [solve_elem|reflexivity].
    + exists "n". split; [reflexivity|]. split; [solve_elem|].
      right. split; [solve_elem|reflexivity].
Defined.

(** ** The GSM parameters *)

(** C4. Without a number but with an APN the validator fails fatally
    ("Specify GSM Number."); otherwise it stores the APN as it is, empty or
    not, and the number: the one supplied, or "*99#" when none is. *)
Theorem gsm_validation w number apn :
  (GetProperty "gsm-number" w).2 = Returned number →
  (GetProperty "gsm-apn" w).2 = Returned apn →
  (number = "" ∧ apn ≠ "" →
   cmdOptionGsm w = failedWith w "Specify GSM Number.") ∧
  (¬ (number = "" ∧ apn ≠ "") →
   cmdOptionGsm w
   = (mkProcess
        (<["gsm-number" := StringValue (if decide (number = "") then "*99#" else number)]>
           (<["gsm-apn" := StringValue apn]> (config w)))
        (output w),
      Returned tt)).
Proof.
  unfold GetProperty. simpl. intros [= Hnumber] [= Hapn].
  unfold cmdOptionGsm. run_cmd. rewrite Hnumber, Hapn. split.
  - intros [-> Hne]. simpl. by rewrite (bool_decide_eq_false_2 _ Hne).
  - intros Hok. destruct (decide (number = "")) as [->|Hne].
    + simpl. destruct (decide (apn = "")) as [->|Ha]; [done|].
      destruct Hok. done.
    + by rewrite (bool_decide_eq_false_2 _ Hne).
Qed.

Lemma gsm_validation_witness :
  let w1 := mkProcess {[ "gsm-apn" := StringValue "foo" ]} [] in
  let w2 := mkProcess ∅ [] in
  cmdOptionGsm w1 = failedWith w1 "Specify GSM Number." ∧
  cmdOptionGsm w2
  = (mkProcess (<["gsm-number" := StringValue "*99#"]>
                  (<["gsm-apn" := StringValue ""]> ∅)) [],
     Returned tt).
Proof.
  intros w1 w2. split.
  - apply (gsm_validation w1 "" "foo"); [reflexivity|reflexivity|].
    split; [reflexivity|discriminate].
  - apply (gsm_validation w2 "" ""); [reflexivity|reflexivity|].
    intros [_ H]. by apply H.
Defined.

(** The third scenario of the specification. *)
Example gsm_supplied :
  cmdOptionGsm
    (mkProcess {[ "gsm-apn" := StringValue "foo";
                  "gsm-number" := StringValue "555" ]} [])
  = (mkProcess {[ "gsm-apn" := StringValue "foo";
                  "gsm-number" := StringValue "555" ]} [],
     Returned tt).
Proof. by vm_compute. Qed.

(** ** Listing the adapters *)

(** The line of an adapter in the listing. *)
Lemma TrimRight_keeps (s : string) (c : ascii) :
  Strings.contains c s = false →
  Strings.TrimRight s (String c "") = s.
Proof.
  induction s as [|d s IH]; [done|]. simpl.
  intros [Hd Hs]%orb_false_elim. rewrite IH by done.
  destruct s; [|done]. apply bool_decide_eq_false in Hd.
  by rewrite bool_decide_eq_false_2 by congruence.
Qed.

Lemma TrimRight_app_keeps (pre l : string) (c : ascii) :
  Strings.contains c l = false → l ≠ "" →
  Strings.TrimRight (pre +:+ l) (String c "") = pre +:+ l.
Proof.
  intros Hl Hne. induction pre as [|d pre IH].
  - by apply TrimRight_keeps.
  - rewrite append_cons. simpl. rewrite IH.
    destruct (pre +:+ l) eqn:Heq; [|done].
    destruct pre; [|done]. by destruct Hne.
Qed.

Lemma TrimRight_app_cut (s : string) (c : ascii) :
  Strings.TrimRight (s +:+ String c "") (String c "")
  = Strings.TrimRight s (String c "").
Proof.
  induction s as [|d s IH].
  - simpl. by rewrite bool_decide_eq_true_2.
  - rewrite append_cons. simpl. by rewrite IH.
Qed.

Lemma Join_snoc (ls : list string) (l sep : string) :
  ls ≠ [] →
  Strings.Join (ls ++ [l]) sep = Strings.Join ls sep +:+ sep +:+ l.
Proof.
  induction ls as [|e [|e' ls] IH]; [done|done|]. intros _.
  change (Strings.Join ((e :: e' :: ls) ++ [l]) sep)
    with (e +:+ sep +:+ Strings.Join ((e' :: ls) ++ [l]) sep).
  rewrite IH by done.
  change (Strings.Join (e :: e' :: ls) sep)
    with (e +:+ sep +:+ Strings.Join (e' :: ls) sep).
  by rewrite !append_assoc.
Qed.

(** The last line of a joined text ends the text. *)
Lemma Join_last (ls : list string) (l sep : string) :
  ∃ pre, Strings.Join (ls ++ [l]) sep = pre +:+ l.
Proof.
  destruct ls as [|e ls].
  - by exists "".
  - rewrite Join_snoc by done. eexists. by rewrite <- append_assoc.
Qed.

(** The text that the loop over the adapters builds. *)
Lemma listing_text (ls : list string) (adapters : list Bluez.Adapter) :
  ls ≠ [] →
  foldl (λ text adapter,
           text +:+ "- " +:+ Filepath.Base (Bluez.Path adapter) +:+ LF)
        (Strings.Join ls LF +:+ LF) adapters
  = Strings.Join
      (ls ++ ((λ adapter, "- " +:+ Filepath.Base (Bluez.Path adapter))
                <$> adapters))
      LF +:+ LF.
Proof.
  revert ls. induction adapters as [|adapter adapters IH]; intros ls Hls; simpl.
  - by rewrite app_nil_r.
  - rewrite cons_middle, app_assoc. rewrite <- IH by (by destruct ls).
    f_equal. rewrite Join_snoc by done. by rewrite !append_assoc.
Qed.

(** C7, as the code has it.  With list-adapters enabled the validator prints
    one text, "List of adapters:" and then "- " and the base path segment of
    every known adapter, one per line, leaves the property store as it is,
    and the process terminates with status 0: what follows the validator
    does not run.  With list-adapters not enabled it does nothing and
    returns. *)
Theorem list_adapters_prints_and_exits (b : Bluez.Bluez) w enabled :
  (IsPropertyEnabled "list-adapters" w).2 = Returned enabled →
  (enabled = false → cmdOptionListAdapters b w = (w, Returned tt)) ∧
  (enabled = true →
   ∃ text,
     cmdOptionListAdapters b w
     = (mkProcess (config w) (output w ++ [(Stdout, text)]), Exited 0) ∧
     (∀ A (rest : Cmd A),
        (cmdOptionListAdapters b;; rest) w
        = (mkProcess (config w) (output w ++ [(Stdout, text)]), Exited 0)) ∧
     (Forall (λ adapter,
                Strings.contains "010"%char (Filepath.Base (Bluez.Path adapter))
                = false) (Bluez.GetAdapters b) →
      Strings.Split text "010"%char
      = "List of adapters:"
          :: ((λ adapter, "- " +:+ Filepath.Base (Bluez.Path adapter))
                <$> Bluez.GetAdapters b))).
Proof.
  unfold IsPropertyEnabled. simpl. intros [= Henabled].
  unfold cmdOptionListAdapters. run_cmd. rewrite Henabled. split.
  - by intros ->.
  - intros ->. simpl. eexists. split; [reflexivity|]. split; [done|].
    intros Hlines.
    pose proof (listing_text ["List of adapters:"] (Bluez.GetAdapters b)) as Htext.
    change (Strings.Join ["List of adapters:"] LF) with "List of adapters:" in Htext.
    rewrite Htext by done. clear Htext.
    change (["List of adapters:"] ++ ?l) with ("List of adapters:" :: l).
    set (lines := (λ adapter, "- " +:+ Filepath.Base (Bluez.Path adapter))
                    <$> Bluez.GetAdapters b).
    unfold LF. rewrite TrimRight_app_cut.
    assert (Forall (λ l, Strings.contains "010"%char l = false ∧ l ≠ "")
              ("List of adapters:" :: lines)) as Hall.
    { constructor; [done|]. subst lines. apply Forall_fmap.
      eapply Forall_impl; [exact Hlines|]. simpl. intros adapter Hbase. done. }
    assert (Strings.TrimRight
              (Strings.Join ("List of adapters:" :: lines) (String "010" ""))
              (String "010" "")
            = Strings.Join ("List of adapters:" :: lines) (String "010" "")) as ->.
    { destruct (exists_last (l := "List of adapters:" :: lines)) as (ls & l & Heq);
        [done|].
      rewrite Heq in Hall |- *. apply Forall_app in Hall as [_ Hl].
      apply Forall_singleton in Hl as [Hl1 Hl2].
      destruct (Join_last ls l (String "010" "")) as [pre ->].
      by apply TrimRight_app_keeps. }
    apply Split_Join; [done|].
    eapply Forall_impl; [exact Hall|]. by intros l [? _].
Qed.

Lemma list_adapters_prints_and_exits_witness :
  let b := {| Bluez.GetAdapters :=
                [ {| Bluez.Name := "first"; Bluez.Path := "/org/bluez/hci0" |};
                  {| Bluez.Name := "second"; Bluez.Path := "/org/bluez/hci1" |} ] |} in
  let w := mkProcess {[ "list-adapters" := BoolValue true ]} [] in
  ∃ text,
    cmdOptionListAdapters b w
    = (mkProcess (config w) (output w ++ [(Stdout, text)]), Exited 0) ∧
    (∀ A (rest : Cmd A),
       (cmdOptionListAdapters b;; rest) w
       = (mkProcess (config w) (output w ++ [(Stdout, text)]), Exited 0)) ∧
    Strings.Split text "010"%char = ["List of adapters:"; "- hci0"; "- hci1"].
Proof.
  intros b w.
  destruct (list_adapters_prints_and_exits b w true eq_refl) as [_ H].
  destruct (H eq_refl) as (text & Hrun & Hrest & Hlines).
  exists text. split; [exact Hrun|]. split; [exact Hrest|].
  apply Hlines. repeat constructor.
Defined.

(** C7, as the specification has it, fails: with list-adapters enabled the
    validator does not return, and a validator that follows it (here the one
    of the GSM parameters) does not run. *)
Lemma list_adapters_does_not_continue :
  let b := {| Bluez.GetAdapters :=
                [ {| Bluez.Name := "first"; Bluez.Path := "/org/bluez/hci0" |} ] |} in
  let w := mkProcess {[ "list-adapters" := BoolValue true ]} [] in
  (IsPropertyEnabled "list-adapters" w).2 = Returned true ∧
  ¬ (∃ w', cmdOptionListAdapters b w = (w', Returned tt)) ∧
  (cmdOptionListAdapters b;; cmdOptionGsm) w
  = (mkProcess (config w) [(Stdout, "List of adapters:" +:+ LF +:+ "- hci0")],
     Exited 0) ∧
  config ((cmdOptionListAdapters b;; cmdOptionGsm) w).1 !! "gsm-number" = None.
Proof.
  intros b w. split; [reflexivity|]. split; [|split; reflexivity].
  intros [w' H]. vm_compute in H. discriminate.
Qed.

(** ** The version *)

(** A string with a separator has at least two segments. *)
Lemma Split_with_sep (s : string) (sep : ascii) :
  Strings.contains sep s = true →
  ∃ first second rest, Strings.Split s sep = first :: second :: rest.
Proof.
  induction s as [|c s IH]; simpl; [done|].
  destruct (Strings.contains sep s) eqn:Hs.
  - intros _. destruct IH as (first & second & rest & ->); [done|].
    case_bool_decide; by eexists _, _, _.
  - rewrite orb_false_r. intros Hc%bool_decide_eq_true. subst c.
    rewrite bool_decide_eq_true_2 by done.
    rewrite (Split_no_sep _ _ Hs). by eexists _, _, _.
Qed.

(** C8. With version enabled the validator prints the version string and the
    process terminates with status 0: the version alone when [Version] has no
    "@", the version and the build, the first two "@"-separated segments,
    otherwise.  For every [Version] one of the two happens: there is no
    failure on either path. *)
Theorem version_output (Version : string) w :
  (IsPropertyEnabled "version" w).2 = Returned true →
  (Strings.contains "@"%char Version = false →
   cmdOptionVersion Version w
   = (mkProcess (config w) (output w ++ [(Stdout, "Bluetuith v" +:+ Version)]),
      Exited 0)) ∧
  (∀ version build rest,
     Strings.Split Version "@"%char = version :: build :: rest →
     cmdOptionVersion Version w
     = (mkProcess (config w)
          (output w ++ [(Stdout, "Bluetuith v" +:+ version +:+ " (" +:+ build +:+ ")")]),
        Exited 0)) ∧
  (∃ text,
     cmdOptionVersion Version w
     = (mkProcess (config w) (output w ++ [(Stdout, text)]), Exited 0)).
Proof.
  unfold IsPropertyEnabled. simpl. intros [= Henabled].
  assert (Strings.contains "@"%char Version = false →
          cmdOptionVersion Version w
          = (mkProcess (config w) (output w ++ [(Stdout, "Bluetuith v" +:+ Version)]),
             Exited 0)) as Halone.
  { unfold cmdOptionVersion. run_cmd. rewrite Henabled. simpl.
    intros Hno. rewrite (Split_no_sep _ _ Hno). simpl.
    by rewrite append_empty_r. }
  assert (∀ version build rest,
            Strings.Split Version "@"%char = version :: build :: rest →
            cmdOptionVersion Version w
            = (mkProcess (config w)
                 (output w ++ [(Stdout, "Bluetuith v" +:+ version +:+ " ("
                                        +:+ build +:+ ")")]),
               Exited 0)) as Hboth.
  { unfold cmdOptionVersion. run_cmd. rewrite Henabled. simpl.
    intros version build rest ->. done. }
  split; [exact Halone|]. split; [exact Hboth|].
  destruct (Strings.contains "@"%char Version) eqn:Hat.
  - destruct (Split_with_sep _ _ Hat) as (version & build & rest & Hsplit).
    eexists. by apply (Hboth version build rest).
  - eexists. by apply Halone.
Qed.

Lemma version_output_witness :
  let w := mkProcess {[ "version" := BoolValue true ]} [] in
  cmdOptionVersion "0.2.3" w
  = (mkProcess (config w) [(Stdout, "Bluetuith v0.2.3")], Exited 0) ∧
  cmdOptionVersion "0.2.3@4f1c2ab" w
  = (mkProcess (config w) [(Stdout, "Bluetuith v0.2.3 (4f1c2ab)")], Exited 0).
Proof.
  intros w. split.
  - apply (proj1 (version_output "0.2.3" w eq_refl)). reflexivity.
  - apply (proj1 (proj2 (version_output "0.2.3@4f1c2ab" w eq_refl))
             "0.2.3" "4f1c2ab" []).
    reflexivity.
Defined.

(** A version with a build segment always splits into a version and a build. *)
Lemma version_with_build (version rest : string) :
  Strings.contains "@"%char version = false →
  ∃ build more,
    Strings.Split (version +:+ "@" +:+ rest) "@"%char = version :: build :: more.
Proof.
  intros Hv. change (version +:+ "@" +:+ rest) with (version +:+ String "@" rest).
  rewrite Split_app_sep by done.
  destruct rest as [|c rest]; simpl; [by eexists _, _|].
  case_bool_decide; [by eexists _, _|].
  destruct (Strings.Split rest "@"); by eexists _, _.
Qed.

(** ** The loader *)

Lemma convert_scalar old text v : Pflag.convert old text = Some v → scalar v.
Proof.
  destruct old as [s|b|m]; simpl; [by intros [= <-]| |by intros [= <-]].
  destruct (Pflag.ParseBool text); simpl; [by intros [= <-]|done].
Qed.

(** The kind of a flag does not change when it is set. *)
Lemma convert_kind old text v text' :
  Pflag.convert old text = Some v →
  Pflag.convert v text' = Pflag.convert old text'.
Proof.
  destruct old as [s|b|m]; simpl; [by intros [= <-]| |by intros [= <-]].
  destruct (Pflag.ParseBool text); simpl; [by intros [= <-]|done].
Qed.

Lemma Set_spec fs name text fs' :
  Pflag.Set_ fs name text = inr fs' →
  ∃ f v, fs !! name = Some f ∧ Pflag.convert (Pflag.Value f) text = Some v ∧
         fs' = <[name := Pflag.mkFlag (Pflag.Usage f) v true]> fs.
Proof.
  unfold Pflag.Set_. destruct (fs !! name) as [f|]; [|done].
  destruct (Pflag.convert (Pflag.Value f) text) as [v|] eqn:Hv; [|done].
  intros [= <-]. by exists f, v.
Qed.

(** What a successful parse of the command line leaves in the flag set. *)
Lemma Parse_spec arguments : ∀ fs fs',
  Pflag.Parse fs arguments = (fs', None) →
  (∀ k, k ∉ arguments.*1 → fs' !! k = fs !! k) ∧
  (∀ k, k ∈ arguments.*1 →
     ∃ f', fs' !! k = Some f' ∧ Pflag.Changed f' = true ∧ scalar (Pflag.Value f')) ∧
  (∀ pre k text post,
     arguments = pre ++ (k, text) :: post → k ∉ post.*1 →
     ∃ f f', fs !! k = Some f ∧ fs' !! k = Some f' ∧
             Pflag.convert (Pflag.Value f) text = Some (Pflag.Value f')).
Proof.
  induction arguments as [|[n t] rest IH]; intros fs fs' Hparse; simpl in Hparse.
  { injection Hparse as <-. split; [done|]. split.
    - intros k Hk. by apply elem_of_nil in Hk.
    - intros [|??] ???; done. }
  destruct (Pflag.Set_ fs n t) as [err|fs1] eqn:Hset; [done|].
  apply Set_spec in Hset as (f & v & Hf & Hv & ->).
  destruct (IH _ _ Hparse) as (IHa & IHb & IHc). clear IH.
  assert (∀ k, k ∉ rest.*1 → k = n →
            fs' !! k = Some (Pflag.mkFlag (Pflag.Usage f) v true)) as Hhere.
  { intros k Hk ->. by rewrite IHa, lookup_insert_eq. }
  split; [|split].
  - intros k [Hkn Hk]%not_elem_of_cons.
    by rewrite IHa, lookup_insert_ne.
  - intros k Hk. destruct (decide (k ∈ rest.*1)) as [Hin|Hnin]; [by apply IHb|].
    apply elem_of_cons in Hk as [->|Hk]; [|done].
    eexists. split; [by apply Hhere|]. split; [done|].
    by eapply convert_scalar.
  - intros pre k text post Heq Hpost. destruct pre as [|[n' t'] pre].
    + simpl in Heq. injection Heq as -> -> ->.
      exists f. eexists. split; [done|]. split; [by apply Hhere|]. done.
    + simpl in Heq. injection Heq as -> -> ->.
      destruct (IHc pre k text post eq_refl Hpost) as (f1 & f' & Hf1 & Hf' & Hconv).
      destruct (decide (n' = k)) as [->|Hne].
      * rewrite lookup_insert_eq in Hf1. injection Hf1 as <-. simpl in Hconv.
        exists f, f'. split; [done|]. split; [done|].
        by rewrite <- (convert_kind _ _ _ text Hv).
      * rewrite lookup_insert_ne in Hf1 by done. by exists f1, f'.
Qed.

(** Every registered flag is at its default, a boolean or a string. *)
Lemma registeredFlags_default name f :
  registeredFlags !! name = Some f →
  Pflag.Changed f = false ∧ scalar (Pflag.Value f).
Proof.
  unfold registeredFlags. generalize options. intros l.
  assert (∀ fs : Pflag.FlagSet,
            (∀ k g, fs !! k = Some g →
                    Pflag.Changed g = false ∧ scalar (Pflag.Value g)) →
            foldl (λ fs option,
                     if IsBoolean option
                     then Pflag.Bool fs (Name option) false (Description option)
                     else Pflag.String fs (Name option) (Value option)
                            (Description option)) fs l !! name = Some f →
            Pflag.Changed f = false ∧ scalar (Pflag.Value f)) as Hgen.
  { induction l as [|o l IH]; intros fs Hfs; simpl; [by apply Hfs|].
    apply IH. intros k g.
    destruct (IsBoolean o); unfold Pflag.Bool, Pflag.String;
      (destruct (decide (Name o = k)) as [->|Hne];
       [rewrite lookup_insert_eq; by intros [= <-]
       |rewrite lookup_insert_ne by done; apply Hfs]). }
  apply Hgen. intros k g. unfold Pflag.NewFlagSet. by rewrite lookup_empty.
Qed.

Lemma Merge_lookup (src dest : gmap string PropertyValue) k :
  Koanf.Merge src dest !! k
  = match src !! k, dest !! k with
    | Some s, Some d => Some (Koanf.mergeValue s d)
    | Some s, None => Some s
    | None, d => d
    end.
Proof.
  unfold Koanf.Merge. rewrite lookup_union_with.
  by destruct (src !! k), (dest !! k).
Qed.

Lemma mergeValue_scalar s d : scalar s → Koanf.mergeValue s d = s.
Proof. by destruct s. Qed.

Section LoaderFacts.

Variable Unmarshal : string → string + gmap string PropertyValue.

(** What the configuration provider of the flags delivers. *)
Lemma Posflag_lookup (fs : Pflag.FlagSet) (ko : gmap string PropertyValue)
    (mp : gmap string PropertyValue) k :
  Koanf.Read (Koanf.Posflag fs) ko = inr mp →
  mp !! k
  = match fs !! k with
    | Some f =>
        if negb (Pflag.Changed f) && bool_decide (is_Some (ko !! k))
        then None else Some (Pflag.Value f)
    | None => None
    end.
Proof.
  simpl. intros [= <-]. rewrite map_lookup_imap. by destruct (fs !! k).
Qed.

(** The run of [parse] once the directory is known and the command line is
    parsed: the file decides. *)
Lemma parse_run env w dir fs :
  configDir env = Some dir →
  Pflag.Parse registeredFlags (args env) = (fs, None) →
  parse Unmarshal env w
  = match Unmarshal (default "" (files env !! configFileIn dir)) with
    | inl err => failedWith w err
    | inr fileMap =>
        let loaded := Koanf.Merge fileMap (config w) in
        match Koanf.Read (Koanf.Posflag fs) loaded with
        | inl err => failedWith (mkProcess loaded (output w)) err
        | inr flagMap =>
            (mkProcess (Koanf.Merge flagMap loaded) (output w), Returned tt)
        end
    end.
Proof.
  intros Hdir Hparse. unfold parse, ConfigPath. rewrite Hdir.
  change (foldl _ Pflag.NewFlagSet options) with registeredFlags.
  rewrite Hparse. unfold configFileIn.
  unfold mbind, Cmd_bind, when, check, Load, FileProvider. simpl.
  by destruct (Unmarshal _).
Qed.

(** C5. A missing or an empty configuration file is tolerated: the loader
    returns, with no diagnostic, and startup goes on (the parser of the file
    accepting the empty document); a file that the parser rejects is
    fatal. *)
Theorem config_file_missing_or_malformed env w dir fs :
  configDir env = Some dir →
  Pflag.Parse registeredFlags (args env) = (fs, None) →
  (∀ empty,
     files env !! configFileIn dir = None ∨
     files env !! configFileIn dir = Some "" →
     Unmarshal "" = inr empty →
     ∃ w', parse Unmarshal env w = (w', Returned tt) ∧ output w' = output w) ∧
  (∀ content err,
     files env !! configFileIn dir = Some content →
     Unmarshal content = inl err →
     parse Unmarshal env w = failedWith w err ∧
     fatal (parse Unmarshal env w).2).
Proof.
  intros Hdir Hparse. rewrite (parse_run env w dir fs Hdir Hparse). split.
  - intros empty Hfile Hempty.
    assert (default "" (files env !! configFileIn dir) = "") as ->.
    { by destruct Hfile as [-> | ->]. }
    rewrite Hempty. simpl. by eexists.
  - intros content err Hcontent Herr. rewrite Hcontent. simpl. rewrite Herr.
    split; [done|]. apply failedWith_fatal.
Qed.

(** C6. A flag given on the command line decides the property, whatever the
    configuration file holds for it; a property that only the file holds keeps
    the value of the file.  The flags given are those of the arguments, each
    with the value of its last argument. *)
Theorem flags_take_precedence env w dir fileMap fs :
  config w = ∅ →
  configDir env = Some dir →
  Unmarshal (default "" (files env !! configFileIn dir)) = inr fileMap →
  Pflag.Parse registeredFlags (args env) = (fs, None) →
  ∃ w',
    parse Unmarshal env w = (w', Returned tt) ∧
    (∀ name f,
       fs !! name = Some f → Pflag.Changed f = true →
       config w' !! name = Some (Pflag.Value f)) ∧
    (∀ name v,
       fileMap !! name = Some v →
       (∀ f, fs !! name = Some f → Pflag.Changed f = false) →
       config w' !! name = Some v) ∧
    (∀ name,
       name ∈ (args env).*1 ↔
       ∃ f, fs !! name = Some f ∧ Pflag.Changed f = true) ∧
    (∀ pre name text post,
       args env = pre ++ (name, text) :: post → name ∉ post.*1 →
       ∃ f0 f, registeredFlags !! name = Some f0 ∧ fs !! name = Some f ∧
               Pflag.convert (Pflag.Value f0) text = Some (Pflag.Value f)).
Proof.
  intros Hstore Hdir Hfile Hparse.
  rewrite (parse_run env w dir fs Hdir Hparse), Hfile. simpl.
  destruct (Parse_spec _ _ _ Hparse) as (Hother & Hgiven & Hlast).
  eexists. split; [reflexivity|]. simpl.
  assert (∀ name f, fs !! name = Some f → Pflag.Changed f = true →
                    name ∈ (args env).*1) as Hchanged.
  { intros name f Hf Hc. destruct (decide (name ∈ (args env).*1)); [done|].
    rewrite Hother in Hf by done.
    apply registeredFlags_default in Hf as [Hf _]. congruence. }
  split; [|split; [|split]].
  - intros name f Hf Hc.
    rewrite Merge_lookup, (Posflag_lookup fs _ _ name eq_refl), Hf, Hc. simpl.
    destruct (Hgiven name (Hchanged _ _ Hf Hc)) as (f' & Hf' & _ & Hscalar).
    assert (f' = f) as -> by congruence.
    destruct (Koanf.Merge fileMap (config w) !! name); [|done].
    by rewrite mergeValue_scalar.
  - intros name v Hv Hunset.
    assert (Koanf.Merge fileMap (config w) !! name = Some v) as Hloaded.
    { by rewrite Merge_lookup, Hv, Hstore, lookup_empty. }
    rewrite Merge_lookup, (Posflag_lookup fs _ _ name eq_refl), Hloaded.
    destruct (fs !! name) as [f|] eqn:Hf; [|done].
    by rewrite (Hunset f eq_refl).
  - intros name. split.
    + intros Hin. destruct (Hgiven name Hin) as (f & Hf & Hc & _). eauto.
    + intros (f & Hf & Hc). eauto.
  - exact Hlast.
Qed.

End LoaderFacts.

Lemma config_file_missing_or_malformed_witness :
  let w := mkProcess ∅ [] in
  let missing := mkEnv (Some "/home/user/.config/bluetuith") ∅ [] in
  let malformed :=
    mkEnv (Some "/home/user/.config/bluetuith")
      {[ "/home/user/.config/bluetuith/bluetuith.conf" := "{ adapter: [" ]} [] in
  (∃ w', parse sampleUnmarshal missing w = (w', Returned tt) ∧ output w' = []) ∧
  fatal (parse sampleUnmarshal malformed w).2.
Proof.
  intros w missing malformed. split.
  - apply (proj1 (config_file_missing_or_malformed sampleUnmarshal missing w
                    "/home/user/.config/bluetuith"
                    (Pflag.Parse registeredFlags []).1 eq_refl eq_refl) ∅).
    + left. reflexivity.
    + reflexivity.
  - apply (proj2 (config_file_missing_or_malformed sampleUnmarshal malformed w
                    "/home/user/.config/bluetuith"
                    (Pflag.Parse registeredFlags []).1 eq_refl eq_refl)
             "{ adapter: ["
             "Found a punctuator character when expecting a quoteless string").
    + reflexivity.
    + reflexivity.
Defined.

Lemma flags_take_precedence_witness :
  let w := mkProcess ∅ [] in
  let env :=
    mkEnv (Some "/home/user/.config/bluetuith")
      {[ "/home/user/.config/bluetuith/bluetuith.conf" :=
           "adapter: hci1" +:+ LF +:+ "gsm-apn: internet" ]}
      [("adapter", "hci0"); ("no-warning", "true")] in
  ∃ w',
    parse sampleUnmarshal env w = (w', Returned tt) ∧
    config w' !! "adapter" = Some (StringValue "hci0") ∧
    config w' !! "no-warning" = Some (BoolValue true) ∧
    config w' !! "gsm-apn" = Some (StringValue "internet").
Proof.
  intros w env.
  destruct (flags_take_precedence sampleUnmarshal env w
              "/home/user/.config/bluetuith"
              {[ "adapter" := StringValue "hci1";
                 "gsm-apn" := StringValue "internet" ]}
              (Pflag.Parse registeredFlags (args env)).1)
    as (w' & Hrun & Hflag & Hfile & _); [reflexivity..|].
  exists w'. split; [exact Hrun|]. split; [|split].
  - apply (Hflag "adapter"
             (Pflag.mkFlag "Specify an adapter to use. (For example, hci0)"
                (StringValue "hci0") true)); reflexivity.
  - apply (Hflag "no-warning"
             (Pflag.mkFlag
                "Do not display warnings when the application has initialized."
                (BoolValue true) true)); reflexivity.
  - apply Hfile; [reflexivity|].
    intros f Hf. vm_compute in Hf. by injection Hf as <-.
Defined.

(** ** Adapter states: more of the validator *)

Lemma tokens_cases tokens :
  (∃ pairs, Forall2 validToken tokens pairs) ∨ Exists malformed tokens.
Proof.
  induction tokens as [|ps tokens IH].
  - left. by exists [].
  - destruct (token_cases ps) as [[pc Hps]|Hps]; [|right; by left].
    destruct IH as [[pairs Hv]|Hbad]; [|right; by right].
    left. exists (pc :: pairs). by constructor.
Qed.

(** X1. Whatever the store holds, the adapter-states validator ends in one of
    three ways: it returns and nothing has changed; it returns and the store
    differs under "adapter-states" only, which now holds a mapping; or the
    process exits with status 1 after one diagnostic, the store unchanged.
    It never reads a field of a token that is not there. *)
Theorem adapter_states_outcomes w :
  cmdOptionAdapterStates w = (w, Returned tt) ∨
  (∃ m, cmdOptionAdapterStates w
        = (mkProcess (<["adapter-states" := StringMapValue m]> (config w))
             (output w), Returned tt)) ∨
  (∃ text, cmdOptionAdapterStates w = failedWith w text).
Proof.
  destruct (GetProperty "adapter-states" w) as [w0 o] eqn:Hget0.
  assert (∃ input, (GetProperty "adapter-states" w).2 = Returned input)
    as [input Hget] by (by eexists).
  clear Hget0 w0 o.
  destruct (decide (input = "")) as [->|Hne].
  { left. by apply cmdOptionAdapterStates_empty. }
  destruct (tokens_cases (Strings.Split input ","%char)) as [[pairs Hv]|Hbad].
  - right. left. eexists. by apply (cmdOptionAdapterStates_valid w input pairs).
  - right. right. by apply (cmdOptionAdapterStates_malformed w input).
Qed.

(** The three diagnostics of a token, each for any state of the loop. *)
Lemma token_format_diagnostic vars ps w :
  length (Strings.FieldsFunc ps isSeparator) ≠ 2%nat →
  adapterStatesToken vars ps w
  = failedWith w ("Provided property:state format '" +:+ ps +:+ "' is incorrect.").
Proof.
  intros Hlen. destruct vars as [properties sequence].
  unfold adapterStatesToken.
  by destruct (Strings.FieldsFunc ps isSeparator) as [|p [|s [|x l]]].
Qed.

Lemma token_property_diagnostic vars ps p s w :
  Strings.FieldsFunc ps isSeparator = [p; s] →
  p ∉ propertyOptions →
  adapterStatesToken vars ps w
  = failedWith w
      ("Provided property '" +:+ p +:+ "' is incorrect." +:+ LF
       +:+ "Valid properties are 'powered, scan, discoverable, pairable.'").
Proof.
  intros Hf Hp. destruct vars as [properties sequence].
  unfold adapterStatesToken. rewrite Hf. run_cmd.
  by rewrite (bool_decide_eq_false_2 _ Hp).
Qed.

Lemma token_state_diagnostic vars ps p s w :
  Strings.FieldsFunc ps isSeparator = [p; s] →
  p ∈ propertyOptions →
  s ∉ stateOptions →
  adapterStatesToken vars ps w
  = failedWith w
      ("Provided state '" +:+ s +:+ "' for property '" +:+ p
       +:+ "' is incorrect." +:+ LF
       +:+ "Valid states are 'yes, no, y, n, on, off'.").
Proof.
  intros Hf Hp Hs. destruct vars as [properties sequence].
  unfold adapterStatesToken. rewrite Hf. run_cmd.
  rewrite (bool_decide_eq_true_2 _ Hp). simpl.
  rewrite !bool_decide_eq_false_2; [done| |].
  - intros Hn. apply Hs. cases_elem Hn; solve_elem.
  - intros Hy. apply Hs. cases_elem Hy; solve_elem.
Qed.

(** The loop stops at the first token that fails. *)
Lemma forRange_stops pre pairs bad post vars w text :
  Forall2 validToken pre pairs →
  (∀ vars', adapterStatesToken vars' bad w = failedWith w text) →
  forRange adapterStatesToken (pre ++ bad :: post) vars w = failedWith w text.
Proof.
  intros Hv Hbad. revert vars.
  induction Hv as [|ps pc pre pairs Hps _ IH]; intros vars; simpl;
    unfold mbind, Cmd_bind.
  - by rewrite Hbad.
  - rewrite (token_valid _ _ _ _ Hps). apply IH.
Qed.

(** X2. The diagnostic is that of the first malformed token of the input;
    what follows it is not looked at.  A token without exactly two fields is
    quoted as it stands; a token with an unknown property gets the property
    diagnostic, also when its state is unknown too; the state diagnostic is
    for a token whose property is valid. *)
Theorem first_malformed_token_decides w input pre pairs bad post :
  (GetProperty "adapter-states" w).2 = Returned input →
  input ≠ "" →
  Strings.Split input ","%char = pre ++ bad :: post →
  Forall2 validToken pre pairs →
  malformed bad →
  ∃ text,
    cmdOptionAdapterStates w = failedWith w text ∧
    (length (Strings.FieldsFunc bad isSeparator) ≠ 2%nat →
     text = "Provided property:state format '" +:+ bad +:+ "' is incorrect.") ∧
    (∀ p s,
       Strings.FieldsFunc bad isSeparator = [p; s] → p ∉ propertyOptions →
       text = "Provided property '" +:+ p +:+ "' is incorrect." +:+ LF
              +:+ "Valid properties are 'powered, scan, discoverable, pairable.'") ∧
    (∀ p s,
       Strings.FieldsFunc bad isSeparator = [p; s] → p ∈ propertyOptions →
       text = "Provided state '" +:+ s +:+ "' for property '" +:+ p
              +:+ "' is incorrect." +:+ LF
              +:+ "Valid states are 'yes, no, y, n, on, off'.").
Proof.
  intros Hget Hne Hsplit Hv Hbad.
  assert (∀ text,
            (∀ vars', adapterStatesToken vars' bad w = failedWith w text) →
            cmdOptionAdapterStates w = failedWith w text) as Hrun.
  { intros text Htext.
    unfold cmdOptionAdapterStates, mbind, Cmd_bind.
    unfold GetProperty in *. simpl in Hget. injection Hget as Hget.
    rewrite Hget, (bool_decide_eq_false_2 _ Hne), Hsplit.
    by rewrite (forRange_stops pre pairs bad post _ w text Hv Htext). }
  destruct (decide (length (Strings.FieldsFunc bad isSeparator) = 2%nat))
    as [Hlen|Hlen].
  - destruct (Strings.FieldsFunc bad isSeparator) as [|p [|s [|x l]]] eqn:Hf;
      try done.
    destruct (decide (p ∈ propertyOptions)) as [Hp|Hp].
    + assert (s ∉ stateOptions) as Hs.
      { unfold malformed in Hbad. rewrite Hf in Hbad. simpl in Hbad.
        destruct Hbad as [?|[(p' & [= <-] & ?)|(s' & [= <-] & ?)]]; done. }
      eexists. split.
      { apply Hrun. intros vars'. by apply (token_state_diagnostic vars' bad p s). }
      split; [done|]. split.
      * by intros ?? [= <- <-] ?.
      * by intros ?? [= <- <-] ?.
    + eexists. split.
      { apply Hrun. intros vars'. by apply (token_property_diagnostic vars' bad p s). }
      split; [done|]. split.
      * by intros ?? [= <- <-] ?.
      * by intros ?? [= <- <-] ?.
  - eexists. split.
    { apply Hrun. intros vars'. by apply token_format_diagnostic. }
    split; [done|]. split; intros p s Hf; rewrite Hf in Hlen; done.
Qed.

Lemma first_malformed_token_decides_witness :
  let w := mkProcess
             {[ "adapter-states" :=
                  StringValue "powered: yes,Scan:maybe,pairable" ]} [] in
  cmdOptionAdapterStates w
  = failedWith w
      ("Provided property 'Scan' is incorrect." +:+ LF
       +:+ "Valid properties are 'powered, scan, discoverable, pairable.'").
Proof.
  intros w.
  destruct (first_malformed_token_decides w "powered: yes,Scan:maybe,pairable"
              ["powered: yes"] [("powered", "yes")] "Scan:maybe" ["pairable"])
    as (text & Hrun & _ & Hproperty & _).
  - reflexivity.
  - discriminate.
  - reflexivity.
  - repeat constructor. exists "yes". split; [reflexivity|].
    split; [solve_elem|]. left. split; [solve_elem|reflexivity].
  - right. left. exists "Scan". split; [reflexivity|].
    intros H. refute_elem H.
  - rewrite Hrun. f_equal. apply (Hproperty "Scan" "maybe"); [reflexivity|].
    intros H. refute_elem H.
Defined.

(** X3. A token made of separators only, the empty token of a trailing or a
    doubled comma among them, rejects the whole option. *)
Theorem empty_token_rejected w input token :
  (GetProperty "adapter-states" w).2 = Returned input →
  input ≠ "" →
  token ∈ Strings.Split input ","%char →
  allSeparators isSeparator token →
  ∃ text, cmdOptionAdapterStates w = failedWith w text.
Proof.
  intros Hget Hne Hin Hsep.
  apply (cmdOptionAdapterStates_malformed w input Hget Hne).
  apply Exists_exists. exists token. split; [done|].
  left. unfold Strings.FieldsFunc.
  rewrite <- (append_empty_r token), fieldsFrom_separators by done.
  simpl. lia.
Qed.

Lemma empty_token_rejected_witness :
  let w := mkProcess {[ "adapter-states" := StringValue "powered:yes," ]} [] in
  ∃ text, cmdOptionAdapterStates w = failedWith w text.
Proof.
  intros w. apply (empty_token_rejected w "powered:yes," "").
  - reflexivity.
  - discriminate.
  - replace (Strings.Split _ _) with ["powered:yes"; ""] by reflexivity.
    apply list_elem_of_further, list_elem_of_here.
  - reflexivity.
Defined.

(** ** The GSM parameters: what a successful validation leaves *)

Lemma cmdOptionGsm_inv w w' :
  cmdOptionGsm w = (w', Returned tt) →
  ∃ number apn,
    (GetProperty "gsm-number" w).2 = Returned number ∧
    (GetProperty "gsm-apn" w).2 = Returned apn ∧
    ¬ (number = "" ∧ apn ≠ "") ∧
    w' = mkProcess
           (<["gsm-number" :=
                StringValue (if decide (number = "") then "*99#" else number)]>
              (<["gsm-apn" := StringValue apn]> (config w)))
           (output w).
Proof.
  unfold cmdOptionGsm. run_cmd.
  set (number := match config w !! "gsm-number" with
                 | Some (StringValue s) => s | _ => "" end).
  set (apn := match config w !! "gsm-apn" with
              | Some (StringValue s) => s | _ => "" end).
  intros Hrun. exists number, apn. split; [done|]. split; [done|].
  destruct (decide (number = "")) as [Hn|Hn].
  - rewrite Hn in Hrun. simpl in Hrun.
    destruct (decide (apn = "")) as [Ha|Ha].
    + rewrite Ha in Hrun. simpl in Hrun. injection Hrun as <-.
      split; [by intros [_ ?]|]. by rewrite Ha.
    + rewrite (bool_decide_eq_false_2 _ Ha) in Hrun. simpl in Hrun. done.
  - rewrite (bool_decide_eq_false_2 _ Hn) in Hrun. simpl in Hrun.
    injection Hrun as <-. split; [by intros [? _]|done].
Qed.

(** X4. After the GSM validator has returned, the number in the store is not
    empty, the APN reads as before, a number that was supplied is the number
    stored, and the validator run again returns with nothing changed. *)
Theorem gsm_validation_settles w w' :
  cmdOptionGsm w = (w', Returned tt) →
  (GetProperty "gsm-number" w').2 ≠ Returned "" ∧
  (GetProperty "gsm-apn" w').2 = (GetProperty "gsm-apn" w).2 ∧
  ((GetProperty "gsm-number" w).2 ≠ Returned "" →
   (GetProperty "gsm-number" w').2 = (GetProperty "gsm-number" w).2) ∧
  cmdOptionGsm w' = (w', Returned tt).
Proof.
  intros Hrun.
  destruct (cmdOptionGsm_inv w w' Hrun) as (number & apn & Hn & Ha & Hok & ->).
  set (stored := if decide (number = "") then "*99#" else number).
  assert (stored ≠ "") as Hstored.
  { subst stored. by destruct (decide (number = "")). }
  assert ((GetProperty "gsm-number"
             (mkProcess (<["gsm-number" := StringValue stored]>
                           (<["gsm-apn" := StringValue apn]> (config w)))
                (output w))).2 = Returned stored) as Hn'.
  { unfold GetProperty. simpl. by rewrite lookup_insert_eq. }
  assert ((GetProperty "gsm-apn"
             (mkProcess (<["gsm-number" := StringValue stored]>
                           (<["gsm-apn" := StringValue apn]> (config w)))
                (output w))).2 = Returned apn) as Ha'.
  { unfold GetProperty. simpl.
    by rewrite lookup_insert_ne, lookup_insert_eq. }
  split; [rewrite Hn'; congruence|]. split; [by rewrite Ha', Ha|]. split.
  { rewrite Hn', Hn. intros Hne. subst stored.
    destruct (decide (number = "")); congruence. }
  unfold cmdOptionGsm.
  unfold GetProperty in Hn', Ha'. simpl in Hn', Ha'.
  injection Hn' as Hn'. injection Ha' as Ha'.
  run_cmd. rewrite Hn', Ha'.
  rewrite (bool_decide_eq_false_2 _ Hstored). simpl. f_equal. f_equal.
  rewrite (insert_id _ "gsm-apn" (StringValue apn)).
  - by rewrite insert_insert_eq.
  - by rewrite lookup_insert_ne, lookup_insert_eq.
Qed.

Lemma gsm_validation_settles_witness :
  let w := mkProcess {[ "gsm-apn" := StringValue "internet";
                        "gsm-number" := StringValue "*98#" ]} [] in
  (GetProperty "gsm-number" w).2 ≠ Returned "" ∧
  (GetProperty "gsm-apn" w).2 = Returned "internet" ∧
  cmdOptionGsm w = (w, Returned tt).
Proof.
  intros w.
  destruct (gsm_validation_settles w w) as (Hn & Ha & _ & Hagain);
    [reflexivity|].
  split; [exact Hn|]. split; [exact Ha|exact Hagain].
Defined.

(** ** The loader: the resolved store *)

(** A parse of the command line neither adds nor removes flags. *)
Lemma Parse_defined arguments : ∀ fs fs' k,
  Pflag.Parse fs arguments = (fs', None) →
  is_Some (fs' !! k) ↔ is_Some (fs !! k).
Proof.
  induction arguments as [|[n t] rest IH]; intros fs fs' k Hparse;
    simpl in Hparse.
  { by injection Hparse as <-. }
  destruct (Pflag.Set_ fs n t) as [err|fs1] eqn:Hset; [done|].
  apply Set_spec in Hset as (f & v & Hf & Hv & ->).
  rewrite (IH _ _ k Hparse). destruct (decide (n = k)) as [->|Hne].
  - rewrite lookup_insert_eq, Hf. split; eauto.
  - by rewrite lookup_insert_ne.
Qed.

(** The flag that [parse] defines for an option. *)
Lemma registeredFlags_options :
  Forall (λ o, registeredFlags !! Name o
               = Some (Pflag.mkFlag (Description o)
                         (if IsBoolean o then BoolValue false
                          else StringValue (Value o)) false)) options.
Proof. repeat constructor. Qed.

Lemma registeredFlags_names name :
  is_Some (registeredFlags !! name) → name ∈ Name <$> options.
Proof.
  unfold registeredFlags. generalize options. intros l.
  assert (∀ fs : Pflag.FlagSet,
            is_Some (foldl (λ fs option,
                              if IsBoolean option
                              then Pflag.Bool fs (Name option) false
                                     (Description option)
                              else Pflag.String fs (Name option) (Value option)
                                     (Description option)) fs l !! name) →
            is_Some (fs !! name) ∨ name ∈ Name <$> l) as Hgen.
  { induction l as [|o l IH]; intros fs Hfs; simpl in *; [by left|].
    destruct (IH _ Hfs) as [Hin|Hin]; [|right; by apply list_elem_of_further].
    destruct (decide (Name o = name)) as [<-|Hne];
      [right; apply list_elem_of_here|].
    left. destruct (IsBoolean o); unfold Pflag.Bool, Pflag.String in Hin;
      by rewrite lookup_insert_ne in Hin. }
  intros Hsome. destruct (Hgen _ Hsome) as [Hempty|Hin]; [|done].
  unfold Pflag.NewFlagSet in Hempty. rewrite lookup_empty in Hempty.
  by destruct Hempty.
Qed.

Section ResolvedStore.

Variable Unmarshal : string → string + gmap string PropertyValue.

(** The store that [parse] leaves, key by key. *)
Lemma parse_store env w dir fileMap fs :
  config w = ∅ →
  configDir env = Some dir →
  Unmarshal (default "" (files env !! configFileIn dir)) = inr fileMap →
  Pflag.Parse registeredFlags (args env) = (fs, None) →
  ∃ w',
    parse Unmarshal env w = (w', Returned tt) ∧
    output w' = output w ∧
    ∀ name,
      config w' !! name
      = match fs !! name with
        | Some f =>
            if Pflag.Changed f then Some (Pflag.Value f)
            else match fileMap !! name with
                 | Some v => Some v
                 | None => Some (Pflag.Value f)
                 end
        | None => fileMap !! name
        end.
Proof.
  intros Hstore Hdir Hfile Hparse.
  rewrite (parse_run Unmarshal env w dir fs Hdir Hparse), Hfile. simpl.
  destruct (Parse_spec _ _ _ Hparse) as (Hother & Hgiven & _).
  eexists. split; [reflexivity|]. split; [done|]. simpl. intros name.
  assert (Koanf.Merge fileMap (config w) !! name = fileMap !! name) as Hloaded.
  { rewrite Merge_lookup, Hstore, lookup_empty. by destruct (fileMap !! name). }
  rewrite Merge_lookup, (Posflag_lookup fs _ _ name eq_refl), Hloaded.
  destruct (fs !! name) as [f|] eqn:Hf; [|done].
  destruct (Pflag.Changed f) eqn:Hc; simpl.
  - assert (name ∈ (args env).*1) as Hin.
    { destruct (decide (name ∈ (args env).*1)); [done|].
      rewrite Hother in Hf by done.
      apply registeredFlags_default in Hf as [Hf _]. congruence. }
    destruct (Hgiven name Hin) as (f' & Hf' & _ & Hscalar).
    assert (f' = f) as -> by congruence.
    destruct (fileMap !! name); [|done]. by rewrite mergeValue_scalar.
  - destruct (fileMap !! name) as [v|]; [|done].
    by rewrite bool_decide_eq_true_2.
Qed.

(** X5. After the loader every option has a value in the store, and an option
    that neither the command line nor the configuration file names has its
    default: false for a boolean option, the empty string for the others. *)
Theorem every_option_resolved env w dir fileMap fs :
  config w = ∅ →
  configDir env = Some dir →
  Unmarshal (default "" (files env !! configFileIn dir)) = inr fileMap →
  Pflag.Parse registeredFlags (args env) = (fs, None) →
  ∃ w',
    parse Unmarshal env w = (w', Returned tt) ∧
    Forall (λ o,
              is_Some (config w' !! Name o) ∧
              (Name o ∉ (args env).*1 → fileMap !! Name o = None →
               config w' !! Name o
               = Some (if IsBoolean o then BoolValue false
                       else StringValue (Value o)))) options.
Proof.
  intros Hstore Hdir Hfile Hparse.
  destruct (parse_store env w dir fileMap fs Hstore Hdir Hfile Hparse)
    as (w' & Hrun & _ & Hlookup).
  exists w'. split; [exact Hrun|].
  destruct (Parse_spec _ _ _ Hparse) as (Hother & _ & _).
  eapply Forall_impl; [exact registeredFlags_options|].
  intros o Ho. simpl in Ho. split.
  - rewrite Hlookup.
    assert (is_Some (fs !! Name o)) as [f Hf].
    { apply (Parse_defined _ _ _ _ Hparse). by rewrite Ho. }
    rewrite Hf. destruct (Pflag.Changed f); [done|].
    by destruct (fileMap !! Name o).
  - intros Hargs Hnofile. rewrite Hlookup, Hother, Ho by done. simpl.
    by rewrite Hnofile.
Qed.

(** X6. The store after the loader holds nothing but options and keys of the
    configuration file. *)
Theorem resolved_store_keys env w dir fileMap fs :
  config w = ∅ →
  configDir env = Some dir →
  Unmarshal (default "" (files env !! configFileIn dir)) = inr fileMap →
  Pflag.Parse registeredFlags (args env) = (fs, None) →
  ∃ w',
    parse Unmarshal env w = (w', Returned tt) ∧
    ∀ name,
      is_Some (config w' !! name) ↔
      name ∈ Name <$> options ∨ is_Some (fileMap !! name).
Proof.
  intros Hstore Hdir Hfile Hparse.
  destruct (parse_store env w dir fileMap fs Hstore Hdir Hfile Hparse)
    as (w' & Hrun & _ & Hlookup).
  exists w'. split; [exact Hrun|]. intros name. rewrite Hlookup.
  pose proof (Parse_defined _ _ _ name Hparse) as Hdefined.
  split.
  - destruct (fs !! name) as [f|] eqn:Hf; [|by right].
    intros _. left. apply registeredFlags_names. apply Hdefined. eauto.
  - intros [Hin|Hin].
    + assert (is_Some (fs !! name)) as [f Hf].
      { apply Hdefined. apply list_elem_of_fmap in Hin as (o & -> & Ho).
        pose proof (proj1 (Forall_forall _ _) registeredFlags_options o Ho)
          as Hreg.
        simpl in Hreg. by rewrite Hreg. }
      rewrite Hf. destruct (Pflag.Changed f); [done|].
      by destruct (fileMap !! name).
    + destruct (fs !! name) as [f|]; [|done].
      destruct (Pflag.Changed f); [done|]. by destruct Hin as [v ->].
Qed.


End ResolvedStore.

Lemma every_option_resolved_witness :
  let w := mkProcess ∅ [] in
  let env := mkEnv (Some "/home/user/.config/bluetuith") ∅
               [("adapter", "hci0")] in
  ∃ w',
    parse sampleUnmarshal env w = (w', Returned tt) ∧
    config w' !! "adapter" = Some (StringValue "hci0") ∧
    config w' !! "gsm-number" = Some (StringValue "") ∧
    config w' !! "no-warning" = Some (BoolValue false).
Proof.
  intros w env.
  destruct (every_option_resolved sampleUnmarshal env w
              "/home/user/.config/bluetuith" ∅
              (Pflag.Parse registeredFlags (args env)).1)
    as (w' & Hrun & Hall); [reflexivity..|].
  exists w'. split; [exact Hrun|].
  split.
  { assert (w' = (parse sampleUnmarshal env w).1) as -> by (by rewrite Hrun).
    reflexivity. }
  split.
  - apply (Forall_lookup_1 _ _ 4%nat _ Hall eq_refl).
    + intros H. refute_elem H.
    + reflexivity.
  - apply (Forall_lookup_1 _ _ 8%nat _ Hall eq_refl).
    + intros H. refute_elem H.
    + reflexivity.
Defined.

Lemma resolved_store_keys_witness :
  let w := mkProcess ∅ [] in
  let env :=
    mkEnv (Some "/home/user/.config/bluetuith")
      {[ "/home/user/.config/bluetuith/bluetuith.conf" :=
           "adapter: hci1" +:+ LF +:+ "gsm-apn: internet" ]} [] in
  ∃ w',
    parse sampleUnmarshal env w = (w', Returned tt) ∧
    config w' !! "keybindings" = None.
Proof.
  intros w env.
  destruct (resolved_store_keys sampleUnmarshal env w
              "/home/user/.config/bluetuith"
              {[ "adapter" := StringValue "hci1";
                 "gsm-apn" := StringValue "internet" ]}
              (Pflag.Parse registeredFlags (args env)).1)
    as (w' & Hrun & Hkeys); [reflexivity..|].
  exists w'. split; [exact Hrun|].
  apply eq_None_not_Some. intros Hsome.
  apply Hkeys in Hsome as [Hin|Hin].
  - refute_elem Hin.
  - vm_compute in Hin. by destruct Hin.
Defined.


(** ** The loader and the GSM validator, one after the other *)

(** What follows a call that returns runs in the state the call leaves. *)
Lemma bind_returned {A B} (m : Cmd A) (k : A → Cmd B) w w' a :
  m w = (w', Returned a) → (m ≫= k) w = k a w'.
Proof. intros H. unfold mbind, Cmd_bind. by rewrite H. Qed.

Section Startup.

Variable Unmarshal : string → string + gmap string PropertyValue.

(** X8. When neither the command line nor the configuration file gives a GSM
    number, the loader stores the empty default and the GSM validator decides:
    without an APN either, the number becomes "*99#"; with a non-empty APN
    from the file, the process fails with "Specify GSM Number.". *)
Theorem gsm_number_not_given env w dir fileMap fs :
  config w = ∅ →
  configDir env = Some dir →
  Unmarshal (default "" (files env !! configFileIn dir)) = inr fileMap →
  Pflag.Parse registeredFlags (args env) = (fs, None) →
  "gsm-number" ∉ (args env).*1 → fileMap !! "gsm-number" = None →
  "gsm-apn" ∉ (args env).*1 →
  ∃ w1,
    parse Unmarshal env w = (w1, Returned tt) ∧
    (fileMap !! "gsm-apn" = None →
     ∃ w2,
       (parse Unmarshal env;; cmdOptionGsm) w = (w2, Returned tt) ∧
       config w2 !! "gsm-number" = Some (StringValue "*99#") ∧
       config w2 !! "gsm-apn" = Some (StringValue "")) ∧
    (∀ apn,
       fileMap !! "gsm-apn" = Some (StringValue apn) → apn ≠ "" →
       (parse Unmarshal env;; cmdOptionGsm) w
       = failedWith w1 "Specify GSM Number.").
Proof.
  intros Hstore Hdir Hfile Hparse Hnumber Hnumberfile Hapn.
  destruct (parse_store Unmarshal env w dir fileMap fs Hstore Hdir Hfile Hparse)
    as (w1 & Hrun & _ & Hlookup).
  destruct (Parse_spec _ _ _ Hparse) as (Hother & _ & _).
  assert (config w1 !! "gsm-number" = Some (StringValue "")) as Hn.
  { by rewrite Hlookup, Hother, Hnumberfile. }
  exists w1. split; [exact Hrun|].
  rewrite !(bind_returned _ _ w w1 tt Hrun). split.
  - intros Hapnfile.
    assert (config w1 !! "gsm-apn" = Some (StringValue "")) as Ha.
    { by rewrite Hlookup, Hother, Hapnfile. }
    unfold cmdOptionGsm. run_cmd. rewrite Hn, Ha. simpl.
    eexists. split; [reflexivity|]. simpl.
    split; [apply lookup_insert_eq|].
    by rewrite lookup_insert_ne, lookup_insert_eq.
  - intros apn Hapnfile Hne.
    assert (config w1 !! "gsm-apn" = Some (StringValue apn)) as Ha.
    { by rewrite Hlookup, Hother, Hapnfile. }
    unfold cmdOptionGsm. run_cmd. rewrite Hn, Ha. simpl.
    by rewrite (bool_decide_eq_false_2 _ Hne).
Qed.

End Startup.

Lemma gsm_number_not_given_witness :
  let w := mkProcess ∅ [] in
  let env :=
    mkEnv (Some "/home/user/.config/bluetuith")
      {[ "/home/user/.config/bluetuith/bluetuith.conf" :=
           "adapter: hci1" +:+ LF +:+ "gsm-apn: internet" ]} [] in
  ∃ w1,
    parse sampleUnmarshal env w = (w1, Returned tt) ∧
    (parse sampleUnmarshal env;; cmdOptionGsm) w
    = failedWith w1 "Specify GSM Number.".
Proof.
  intros w env.
  destruct (gsm_number_not_given sampleUnmarshal env w
              "/home/user/.config/bluetuith"
              {[ "adapter" := StringValue "hci1";
                 "gsm-apn" := StringValue "internet" ]}
              (Pflag.Parse registeredFlags (args env)).1)
    as (w1 & Hrun & _ & Hfatal);
    [reflexivity|reflexivity|reflexivity|reflexivity
    |intros H; refute_elem H|reflexivity|intros H; refute_elem H|].
  exists w1. split; [exact Hrun|].
  apply (Hfatal "internet"); [reflexivity|discriminate].
Defined.

(** ** The adapter *)

(** No segment of a split string holds the separator. *)
Lemma Split_segments (s : string) (sep : ascii) :
  Forall (λ e, Strings.contains sep e = false) (Strings.Split s sep).
Proof.
  induction s as [|c s IH]; simpl; [by constructor|].
  case_bool_decide as Hc.
  - by constructor.
  - assert (bool_decide (sep = c) = false) as Hsep.
    { apply bool_decide_eq_false. congruence. }
    destruct (Strings.Split s sep) as [|f fs].
    + repeat constructor. simpl. by rewrite Hsep.
    + inversion_clear IH as [|? ? Hf Hfs]. constructor; [|done]. simpl.
      by rewrite Hf, Hsep.
Qed.

(** The base of a path is "/" or has no slash in it. *)
Lemma Base_no_slash (path : string) :
  Filepath.Base path = "/" ∨
  Strings.contains "/"%char (Filepath.Base path) = false.
Proof.
  unfold Filepath.Base. destruct path as [|c path]; [by right|].
  pose proof (Split_segments (Strings.TrimRight (String c path) "/") "/"%char)
    as Hall.
  destruct (last _) as [[|d e]|] eqn:Hlast; [by left| |by left].
  right. apply last_Some in Hlast as [l' Hlast]. rewrite Hlast in Hall.
  by apply Forall_app in Hall as [_ [Hall _]%Forall_cons].
Qed.

Lemma adapterNamed_first name pre adapter post :
  Filepath.Base (Bluez.Path adapter) = name →
  Forall (λ a, Filepath.Base (Bluez.Path a) ≠ name) pre →
  adapterNamed name (pre ++ adapter :: post) = Some adapter.
Proof.
  intros Hbase Hpre. induction Hpre as [|a pre Ha _ IH]; simpl.
  - by rewrite bool_decide_eq_true_2.
  - by rewrite bool_decide_eq_false_2.
Qed.

Lemma adapterNamed_none name adapters :
  Forall (λ a, Filepath.Base (Bluez.Path a) ≠ name) adapters →
  adapterNamed name adapters = None.
Proof.
  induction 1 as [|a adapters Ha _ IH]; simpl; [done|].
  by rewrite bool_decide_eq_false_2.
Qed.

Lemma cmdOptionAdapter_unknown b w name :
  (GetProperty "adapter" w).2 = Returned name →
  name ≠ "" →
  Forall (λ a, Filepath.Base (Bluez.Path a) ≠ name)
    (Bluez.GetAdapters (Session.Known b)) →
  cmdOptionAdapter b w
  = failedWith w (name +:+ ": The adapter does not exist.").
Proof.
  unfold GetProperty. simpl. intros [= Hget] Hne Hnone.
  unfold cmdOptionAdapter. run_cmd. rewrite Hget.
  rewrite (bool_decide_eq_false_2 _ Hne).
  by rewrite (adapterNamed_none _ _ Hnone).
Qed.

(** X9. An adapter named by the option is selected when its base path
    segment is the option, exactly; of several such adapters the first in
    the order of the session is taken.  The store and the output are left
    alone. *)
Theorem adapter_first_match b w name pre adapter post :
  (GetProperty "adapter" w).2 = Returned name →
  name ≠ "" →
  Bluez.GetAdapters (Session.Known b) = pre ++ adapter :: post →
  Filepath.Base (Bluez.Path adapter) = name →
  Forall (λ a, Filepath.Base (Bluez.Path a) ≠ name) pre →
  ∃ b',
    cmdOptionAdapter b w = (w, Returned b') ∧
    Session.GetCurrentAdapter b' = adapter ∧
    Session.Known b' = Session.Known b.
Proof.
  unfold GetProperty. simpl. intros [= Hget] Hne Hadapters Hbase Hpre.
  unfold cmdOptionAdapter. run_cmd. rewrite Hget.
  rewrite (bool_decide_eq_false_2 _ Hne), Hadapters.
  rewrite (adapterNamed_first _ _ _ _ Hbase Hpre). by eexists.
Qed.

Lemma adapter_first_match_witness :
  let hci0 := {| Bluez.Name := "first"; Bluez.Path := "/org/bluez/hci0" |} in
  let hci1 := {| Bluez.Name := "second"; Bluez.Path := "/org/bluez/hci1" |} in
  let twin := {| Bluez.Name := "third"; Bluez.Path := "/org/other/hci1/" |} in
  let b := Session.mkState {| Bluez.GetAdapters := [hci0; hci1; twin] |}
             hci0 zeroAdapter (λ _, []) in
  let w := mkProcess {[ "adapter" := StringValue "hci1" ]} [] in
  ∃ b',
    cmdOptionAdapter b w = (w, Returned b') ∧
    Session.GetCurrentAdapter b' = hci1 ∧
    Session.Known b' = Session.Known b.
Proof.
  intros hci0 hci1 twin b w.
  apply (adapter_first_match b w "hci1" [hci0] hci1 [twin]);
    [reflexivity|discriminate|reflexivity|reflexivity|].
  repeat constructor. discriminate.
Defined.

(** X10. An option that is the base path segment of no known adapter is
    fatal: the diagnostic names the option, no adapter is selected and the
    store is unchanged. *)
Theorem adapter_unknown_fatal b w name :
  (GetProperty "adapter" w).2 = Returned name →
  name ≠ "" →
  Forall (λ a, Filepath.Base (Bluez.Path a) ≠ name)
    (Bluez.GetAdapters (Session.Known b)) →
  cmdOptionAdapter b w
  = failedWith w (name +:+ ": The adapter does not exist.").
Proof. apply cmdOptionAdapter_unknown. Qed.

Lemma adapter_unknown_fatal_witness :
  let hci0 := {| Bluez.Name := "first"; Bluez.Path := "/org/bluez/hci0" |} in
  let b := Session.mkState {| Bluez.GetAdapters := [hci0] |}
             hci0 zeroAdapter (λ _, []) in
  let w := mkProcess {[ "adapter" := StringValue "HCI0" ]} [] in
  cmdOptionAdapter b w = failedWith w "HCI0: The adapter does not exist.".
Proof.
  intros hci0 b w.
  apply (adapter_unknown_fatal b w "HCI0"); [reflexivity|discriminate|].
  repeat constructor. discriminate.
Defined.

(** X11. An adapter cannot be named by a path: an option with a slash in it,
    other than "/" itself, matches no adapter, whatever the adapters are, and
    is fatal. *)
Theorem adapter_path_never_matches b w name :
  (GetProperty "adapter" w).2 = Returned name →
  Strings.contains "/"%char name = true →
  name ≠ "/" →
  cmdOptionAdapter b w
  = failedWith w (name +:+ ": The adapter does not exist.").
Proof.
  intros Hget Hslash Hne.
  apply cmdOptionAdapter_unknown; [done|by destruct name|].
  apply Forall_forall. intros a _ Hbase.
  destruct (Base_no_slash (Bluez.Path a)) as [Hroot|Hnone]; congruence.
Qed.

Lemma adapter_path_never_matches_witness :
  let hci0 := {| Bluez.Name := "first"; Bluez.Path := "/org/bluez/hci0" |} in
  let b := Session.mkState {| Bluez.GetAdapters := [hci0] |}
             hci0 zeroAdapter (λ _, []) in
  let w := mkProcess {[ "adapter" := StringValue "/org/bluez/hci0" ]} [] in
  cmdOptionAdapter b w
  = failedWith w "/org/bluez/hci0: The adapter does not exist.".
Proof.
  intros hci0 b w.
  apply (adapter_path_never_matches b w "/org/bluez/hci0");
    [reflexivity|reflexivity|discriminate].
Defined.

(** ** The device address and the receive directory *)

(** Storing again what the store holds changes nothing. *)
Lemma AddProperty_same name value w :
  config w !! name = Some value →
  AddProperty name value w = (w, Returned tt).
Proof.
  intros Hv. unfold AddProperty. rewrite (insert_id _ _ _ Hv). by destruct w.
Qed.

Lemma GetProperty_stored name value w :
  (GetProperty name w).2 = Returned value → value ≠ "" →
  config w !! name = Some (StringValue value).
Proof.
  unfold GetProperty. simpl. intros [= Hget] Hne.
  destruct (config w !! name) as [[s|b|m]|]; congruence.
Qed.

Lemma deviceAt_found address devices :
  address ∈ Session.Address <$> devices →
  ∃ device, deviceAt address devices = Some device ∧
            Session.Address device = address.
Proof.
  induction devices as [|d devices IH]; simpl.
  - intros H. by apply elem_of_nil in H.
  - intros Hin. case_bool_decide as Hd; [by exists d|].
    apply elem_of_cons in Hin as [?|Hin]; [congruence|by apply IH].
Qed.

Lemma deviceAt_none address devices :
  address ∉ Session.Address <$> devices → deviceAt address devices = None.
Proof.
  induction devices as [|d devices IH]; simpl; [done|].
  intros [Hd Hin]%not_elem_of_cons.
  rewrite bool_decide_eq_false_2 by congruence. by apply IH.
Qed.

(** X12. The device address is checked, not changed: without an address,
    without a current adapter, or with the address of a device of the current
    adapter the validator returns and the process is as before; an address of
    no device of the current adapter is fatal, and the diagnostic names the
    address and the adapter. *)
Theorem connect_bdaddr_outcomes b w address :
  (GetProperty "connect-bdaddr" w).2 = Returned address →
  (address = "" ∨ Session.GetCurrentAdapter b = zeroAdapter ∨
   address ∈ Session.Address <$> Session.GetDevices b →
   cmdOptionConnectBDAddr b w = (w, Returned tt)) ∧
  (address ≠ "" → Session.GetCurrentAdapter b ≠ zeroAdapter →
   address ∉ Session.Address <$> Session.GetDevices b →
   cmdOptionConnectBDAddr b w
   = failedWith w
       ("No device with address '" +:+ address +:+ "' found on adapter '"
        +:+ Bluez.Name (Session.GetCurrentAdapter b) +:+ "' ("
        +:+ Filepath.Base (Bluez.Path (Session.GetCurrentAdapter b)) +:+ ")")).
Proof.
  intros Hget.
  assert (cmdOptionConnectBDAddr b w
          = if bool_decide (address = "") then (w, Returned tt)
            else if bool_decide (Session.GetCurrentAdapter b = zeroAdapter)
            then (w, Returned tt)
            else match deviceAt address (Session.GetDevices b) with
                 | Some device =>
                     AddProperty "connect-bdaddr"
                       (StringValue (Session.Address device)) w
                 | None =>
                     PrintError
                       (Fmt.Sprintf
                          "No device with address '%s' found on adapter '%s' (%s)"
                          [address; Bluez.Name (Session.GetCurrentAdapter b);
                           Filepath.Base
                             (Bluez.Path (Session.GetCurrentAdapter b))]) w
                 end) as ->.
  { unfold GetProperty in Hget. simpl in Hget. injection Hget as Hget.
    unfold cmdOptionConnectBDAddr, mbind, Cmd_bind, GetProperty.
    rewrite Hget. repeat case_bool_decide; try reflexivity.
    by destruct (deviceAt address (Session.GetDevices b)). }
  split.
  - intros Hok. case_bool_decide as Ha; [done|].
    case_bool_decide as Hz; [done|].
    destruct Hok as [?|[?|Hin]]; [done..|].
    destruct (deviceAt_found _ _ Hin) as (device & -> & ->).
    apply AddProperty_same. by apply GetProperty_stored.
  - intros Ha Hz Hnone.
    rewrite (bool_decide_eq_false_2 _ Ha), (bool_decide_eq_false_2 _ Hz).
    by rewrite (deviceAt_none _ _ Hnone).
Qed.

Lemma connect_bdaddr_outcomes_witness :
  let hci0 := {| Bluez.Name := "first"; Bluez.Path := "/org/bluez/hci0" |} in
  let b := Session.mkState {| Bluez.GetAdapters := [hci0] |} hci0 hci0
             (λ _, [ {| Session.Address := "AA:BB:CC:DD:EE:FF" |} ]) in
  let known := mkProcess {[ "connect-bdaddr" := StringValue "AA:BB:CC:DD:EE:FF" ]} [] in
  let unknown := mkProcess {[ "connect-bdaddr" := StringValue "aa:bb:cc:dd:ee:ff" ]} [] in
  cmdOptionConnectBDAddr b known = (known, Returned tt) ∧
  cmdOptionConnectBDAddr b unknown
  = failedWith unknown
      "No device with address 'aa:bb:cc:dd:ee:ff' found on adapter 'first' (hci0)".
Proof.
  intros hci0 b known unknown. split.
  - apply (proj1 (connect_bdaddr_outcomes b known "AA:BB:CC:DD:EE:FF" eq_refl)).
    right. right. apply list_elem_of_here.
  - apply (proj2 (connect_bdaddr_outcomes b unknown "aa:bb:cc:dd:ee:ff" eq_refl));
      [discriminate|discriminate|].
    intros H. refute_elem H.
Defined.

(** X13. The receive directory is checked, not changed: without the option,
    or with a path that exists and is a directory, the validator returns and
    the process is as before; a path that does not exist or is not a
    directory is fatal. *)
Theorem receive_dir_outcomes (Stat : string → option Os.FileInfo) w dir :
  (GetProperty "receive-dir" w).2 = Returned dir →
  (dir = "" ∨ Stat dir = Some {| Os.IsDir := true |} →
   cmdOptionReceiveDir Stat w = (w, Returned tt)) ∧
  (dir ≠ "" →
   Stat dir = None ∨ Stat dir = Some {| Os.IsDir := false |} →
   cmdOptionReceiveDir Stat w
   = failedWith w (dir +:+ ": Directory is not accessible.")).
Proof.
  intros Hget. pose proof Hget as Hget'.
  unfold GetProperty in Hget'. simpl in Hget'. injection Hget' as Hget'.
  unfold cmdOptionReceiveDir, mbind, Cmd_bind, GetProperty. rewrite Hget'.
  split.
  - intros Hok. case_bool_decide as Hd; [done|].
    destruct Hok as [?| ->]; [done|]. simpl.
    apply AddProperty_same. by apply GetProperty_stored.
  - intros Hd Hbad. rewrite (bool_decide_eq_false_2 _ Hd).
    by destruct Hbad as [-> | ->].
Qed.

Lemma receive_dir_outcomes_witness :
  let Stat := λ path : string,
    if bool_decide (path = "/home/user/Downloads")
    then Some {| Os.IsDir := true |}
    else if bool_decide (path = "/etc/passwd")
    then Some {| Os.IsDir := false |} else None in
  let w1 := mkProcess {[ "receive-dir" := StringValue "/home/user/Downloads" ]} [] in
  let w2 := mkProcess {[ "receive-dir" := StringValue "/etc/passwd" ]} [] in
  cmdOptionReceiveDir Stat w1 = (w1, Returned tt) ∧
  cmdOptionReceiveDir Stat w2
  = failedWith w2 "/etc/passwd: Directory is not accessible.".
Proof.
  intros Stat w1 w2. split.
  - apply (proj1 (receive_dir_outcomes Stat w1 "/home/user/Downloads" eq_refl)).
    right. reflexivity.
  - apply (proj2 (receive_dir_outcomes Stat w2 "/etc/passwd" eq_refl));
      [discriminate|]. right. reflexivity.
Defined.

(** ** The usage text *)

Lemma usage_flag_length (name placeholder : string) :
  name ≠ "" →
  bool_decide (String.length (("  --" +:+ name) +:+ placeholder) ≤ 4)%nat = false.
Proof.
  intros Hne. apply bool_decide_eq_false.
  destruct name as [|c name]; [done|]. simpl. lia.
Qed.

Lemma usage_entry_shape (h name p t r l : string) :
  (((((h +:+ name) +:+ p) +:+ t) +:+ r) +:+ l)
  = (h +:+ name +:+ p +:+ t +:+ r +:+ l).
Proof. by rewrite (append_assoc _ r l), !append_assoc. Qed.

(** X14. The entry of a flag in the usage text always has two lines, the
    flag with its placeholder and the indented description: the layout with
    a single tab is for a flag without a name.  The placeholder "<theme>" is
    for a flag "set-theme", which is no option: the entry of the option
    "theme" has no placeholder. *)
Theorem usage_entry_layout :
  (∀ name usage,
     name ≠ "" →
     ∃ placeholder,
       usageFlag name usage
       = "  --" +:+ name +:+ placeholder +:+ LF +:+ "    " +:+ TAB
         +:+ ReplaceAll usage "010"%char (LF +:+ "    " +:+ TAB) +:+ LF) ∧
  ("set-theme" ∉ Name <$> options) ∧
  (∀ usage,
     usageFlag "theme" usage
     = "  --theme" +:+ LF +:+ "    " +:+ TAB
       +:+ ReplaceAll usage "010"%char (LF +:+ "    " +:+ TAB) +:+ LF).
Proof.
  split; [|split].
  - intros name usage Hne. unfold usageFlag.
    assert (Fmt.Sprintf "  --%s" [name] = "  --" +:+ name) as ->.
    { simpl. by rewrite append_empty_r. }
    pose proof (usage_flag_length name "" Hne) as Hlong0.
    rewrite append_empty_r in Hlong0.
    repeat match goal with
           | |- context [bool_decide (name = ?x)] =>
               destruct (bool_decide (name = x))
           end;
      cbv zeta; rewrite ?(usage_flag_length name _ Hne), ?Hlong0; cbv iota.
    1-7: eexists; by rewrite usage_entry_shape.
    exists "". rewrite <- (append_empty_r ("  --" +:+ name)) at 1.
    by rewrite usage_entry_shape.
  - intros H. refute_elem H.
  - intros usage. unfold usageFlag. simpl.
    by rewrite (usage_entry_shape "  --" "theme" "" (LF +:+ "    " +:+ TAB)).
Qed.

(** ** Generating the configuration *)

(** X15. With generate enabled the validator does not return to its caller,
    whatever [generate] does: when [generate] returns, the process exits with
    status 0 in the state [generate] left; otherwise it has ended as
    [generate] ended it.  Nothing that follows the validator runs. *)
Theorem generate_is_terminal (generate : Cmd unit) w :
  (IsPropertyEnabled "generate" w).2 = Returned true →
  (∀ w', generate w = (w', Returned tt) →
     cmdOptionGenerate generate w = (w', Exited 0)) ∧
  (∀ w', cmdOptionGenerate generate w ≠ (w', Returned tt)) ∧
  (∀ A (rest : Cmd A) w' a,
     (cmdOptionGenerate generate;; rest) w ≠ (w', Returned a)).
Proof.
  unfold IsPropertyEnabled. simpl. intros [= Henabled].
  assert (∀ w' o, cmdOptionGenerate generate w = (w', o) →
                  match generate w with
                  | (w1, Returned _) => w' = w1 ∧ o = Exited 0
                  | (w1, Exited status) => w' = w1 ∧ o = Exited status
                  | (w1, Panicked) => w' = w1 ∧ o = Panicked
                  end) as Hrun.
  { intros w' o. unfold cmdOptionGenerate, mbind, Cmd_bind, IsPropertyEnabled.
    rewrite Henabled. simpl.
    destruct (generate w) as [w1 [[]|status|]]; unfold Exit; by intros [= <- <-]. }
  split; [|split].
  - intros w' Hgen.
    destruct (cmdOptionGenerate generate w) as [w2 o] eqn:Hcmd.
    specialize (Hrun w2 o eq_refl). rewrite Hgen in Hrun.
    by destruct Hrun as [-> ->].
  - intros w' Hcmd. specialize (Hrun w' _ Hcmd).
    by destruct (generate w) as [w1 [[]|status|]]; destruct Hrun.
  - intros A rest w' a. unfold mbind at 1, Cmd_bind at 1.
    destruct (cmdOptionGenerate generate w) as [w2 o] eqn:Hcmd.
    specialize (Hrun w2 o eq_refl).
    destruct (generate w) as [w1 [[]|status|]]; destruct Hrun as [-> ->]; done.
Qed.

Lemma generate_is_terminal_witness :
  let w := mkProcess {[ "generate" := BoolValue true ]} [] in
  let generate : Cmd unit :=
    λ w, (mkProcess (config w) (output w ++ [(Stdout, "Config generated")]),
          Returned tt) in
  (cmdOptionGenerate generate;; cmdOptionGsm) w
  = (mkProcess (config w) [(Stdout, "Config generated")], Exited 0).
Proof.
  intros w generate.
  pose proof (proj1 (generate_is_terminal generate w eq_refl) _ eq_refl) as Hrun.
  unfold mbind, Cmd_bind at 1. by rewrite Hrun.
Defined.

(** ** Adapter states: what is stored *)

Lemma record_lookup_in (m : gmap string string) pairs k v :
  foldl (λ m pc, <[pc.1 := pc.2]> m) m pairs !! k = Some v →
  m !! k = Some v ∨ (k, v) ∈ pairs.
Proof.
  revert m. induction pairs as [|[p c] pairs IH]; intros m; simpl; [by left|].
  intros Hk. destruct (IH _ Hk) as [Hm|Hin]; [|right; by right].
  destruct (decide (p = k)) as [->|Hne].
  - rewrite lookup_insert_eq in Hm. injection Hm as ->. right. by left.
  - rewrite lookup_insert_ne in Hm by done. by left.
Qed.

(** X16. Whenever the adapter-states validator returns for an option that
    was supplied, what it has stored is checked: every key of the mapping
    other than "sequence" is one of the four properties and its value is
    "yes" or "no". *)
Theorem adapter_states_stored_checked w w' input :
  (GetProperty "adapter-states" w).2 = Returned input →
  input ≠ "" →
  cmdOptionAdapterStates w = (w', Returned tt) →
  ∃ m,
    config w' = <["adapter-states" := StringMapValue m]> (config w) ∧
    ∀ k v, m !! k = Some v →
           k = "sequence" ∨ (k ∈ propertyOptions ∧ v ∈ ["yes"; "no"]).
Proof.
  intros Hget Hne Hrun.
  destruct (tokens_cases (Strings.Split input ","%char)) as [[pairs Hv]|Hbad].
  - rewrite (cmdOptionAdapterStates_valid w input pairs Hget Hv) in Hrun.
    injection Hrun as <-. eexists. split; [reflexivity|].
    intros k v Hk. destruct (decide (k = "sequence")) as [->|Hks]; [by left|].
    right. rewrite lookup_insert_ne in Hk by done.
    apply record_lookup_in in Hk as [Hk|Hin]; [by rewrite lookup_empty in Hk|].
    apply list_elem_of_lookup in Hin as [i Hi].
    destruct (Forall2_lookup_r _ _ _ _ _ Hv Hi)
      as (ps & _ & state & _ & Hp & Hs).
    simpl in Hp, Hs. split; [done|].
    destruct Hs as [[_ ->]|[_ ->]]; solve_elem.
  - destruct (cmdOptionAdapterStates_malformed w input Hget Hne Hbad)
      as [text Htext].
    rewrite Htext in Hrun. discriminate.
Qed.

Lemma adapter_states_stored_checked_witness :
  let w := mkProcess {[ "adapter-states" := StringValue "scan:on,powered off" ]} [] in
  ∃ m,
    config (cmdOptionAdapterStates w).1
    = <["adapter-states" := StringMapValue m]> (config w) ∧
    ∀ k v, m !! k = Some v →
           k = "sequence" ∨ (k ∈ propertyOptions ∧ v ∈ ["yes"; "no"]).
Proof.
  intros w.
  apply (adapter_states_stored_checked w (cmdOptionAdapterStates w).1
           "scan:on,powered off"); [reflexivity|discriminate|reflexivity].
Defined.

(** ** The listing and the adapter option *)

Lemma Base_not_empty (path : string) : Filepath.Base path ≠ "".
Proof.
  unfold Filepath.Base. destruct path as [|c path]; [done|].
  by destruct (last _) as [[|d e]|].
Qed.

Lemma adapterNamed_some name adapters :
  name ∈ (λ a, Filepath.Base (Bluez.Path a)) <$> adapters →
  ∃ adapter, adapterNamed name adapters = Some adapter ∧
             adapter ∈ adapters ∧
             Filepath.Base (Bluez.Path adapter) = name.
Proof.
  induction adapters as [|a adapters IH]; simpl.
  - intros H. by apply elem_of_nil in H.
  - intros Hin. case_bool_decide as Ha.
    + exists a. split; [done|]. split; [apply list_elem_of_here|done].
    + apply elem_of_cons in Hin as [?|Hin]; [done|].
      destruct (IH Hin) as (adapter & ? & ? & ?).
      exists adapter. split; [done|]. split; [by apply list_elem_of_further|done].
Qed.

(** X17. Every name that the listing of the adapters prints is accepted by
    the adapter option: with the base path segment of a known adapter as the
    option, the validator selects a known adapter with that base path
    segment and nothing else changes. *)
Theorem listed_adapter_is_accepted b w adapter :
  adapter ∈ Bluez.GetAdapters (Session.Known b) →
  (GetProperty "adapter" w).2
  = Returned (Filepath.Base (Bluez.Path adapter)) →
  ∃ b',
    cmdOptionAdapter b w = (w, Returned b') ∧
    Session.GetCurrentAdapter b' ∈ Bluez.GetAdapters (Session.Known b) ∧
    Filepath.Base (Bluez.Path (Session.GetCurrentAdapter b'))
    = Filepath.Base (Bluez.Path adapter).
Proof.
  intros Hin. unfold GetProperty. simpl. intros [= Hget].
  unfold cmdOptionAdapter. run_cmd. rewrite Hget.
  rewrite (bool_decide_eq_false_2 _ (Base_not_empty _)).
  destruct (adapterNamed_some (Filepath.Base (Bluez.Path adapter))
              (Bluez.GetAdapters (Session.Known b)))
    as (found & -> & Hfound & Hbase).
  { apply list_elem_of_fmap. by exists adapter. }
  by eexists.
Qed.

Lemma listed_adapter_is_accepted_witness :
  let hci0 := {| Bluez.Name := "first"; Bluez.Path := "/org/bluez/hci0" |} in
  let hci1 := {| Bluez.Name := "second"; Bluez.Path := "/org/bluez/hci1" |} in
  let b := Session.mkState {| Bluez.GetAdapters := [hci0; hci1] |}
             hci0 zeroAdapter (λ _, []) in
  let w := mkProcess {[ "adapter" := StringValue "hci1" ]} [] in
  ∃ b',
    cmdOptionAdapter b w = (w, Returned b') ∧
    Session.GetCurrentAdapter b' ∈ [hci0; hci1] ∧
    Filepath.Base (Bluez.Path (Session.GetCurrentAdapter b')) = "hci1".
Proof.
  intros hci0 hci1 b w.
  apply (listed_adapter_is_accepted b w hci1); [|reflexivity].
  apply list_elem_of_further, list_elem_of_here.
Defined.
